(** * Document agent service: ingestion pipeline and document store

    A shallow embedding of the watch-driven ingestion pipeline
    ([app/ingestion/watchers/local/local_handlers.py]) and of the MongoDB
    document repository ([app/db/mongo/doc_repo.py]), together with the
    properties of the specification that concern them.

    Python coroutines are modelled in a state-and-exception monad over a
    [World] that holds the [docs] collection, the log, a schedule of driver
    faults and the entropy consumed by [uuid.uuid4].  What lies outside the
    repository (format libraries, the file system, the language model) is
    supplied by an [Env] record. *)

From Stdlib Require Import ZArith NArith Ascii String List Lia Permutation DecimalString.
From stdpp Require Import base list strings gmap.

(** ** Python strings and [pathlib] *)

Module Py.

(** [s.lower()] on the ASCII range. *)
Definition lower_ascii (c : ascii) : ascii :=
  let n := nat_of_ascii c in
  if (65 <=? n)%nat && (n <=? 90)%nat then ascii_of_nat (n + 32) else c.

Fixpoint lower (s : string) : string :=
  match s with
  | EmptyString => EmptyString
  | String c s' => String (lower_ascii c) (lower s')
  end.

(** [s.split(sep)] for a one-character separator: never empty. *)
Fixpoint split (sep : ascii) (s : string) : list string :=
  match s with
  | EmptyString => [EmptyString]
  | String c s' =>
      if Ascii.eqb c sep then EmptyString :: split sep s'
      else match split sep s' with
           | [] => [String c EmptyString]
           | p :: ps => String c p :: ps
           end
  end.

(** [s.rfind(".")], [None] standing for -1. *)
Fixpoint rfind_dot (s : string) : option nat :=
  match s with
  | EmptyString => None
  | String c s' =>
      match rfind_dot s' with
      | Some i => Some (S i)
      | None => if Ascii.eqb c "."%char then Some 0%nat else None
      end
  end.

(** [s.startswith(p)]. *)
Definition startswith (s p : string) : bool := String.prefix p s.

(** [s[:n]] for [n >= 0]. *)
Fixpoint take (n : N) (s : string) : string :=
  match s with
  | EmptyString => EmptyString
  | String c s' => if (n =? 0)%N then EmptyString else String c (take (N.pred n) s')
  end.

(** Truthiness of a [str]. *)
Definition truthy (s : string) : bool := negb (String.eqb s EmptyString).

(** Truthiness of an [Optional[str]]. *)
Definition truthy_opt (o : option string) : bool :=
  match o with Some s => truthy s | None => false end.

(** [", ".join(l)]. *)
Fixpoint join (sep : string) (l : list string) : string :=
  match l with
  | [] => EmptyString
  | [x] => x
  | x :: l' => x +:+ sep +:+ join sep l'
  end.

End Py.

Module Path.

(** The components [pathlib] keeps of a POSIX path: empty ones and [.] are
    dropped. *)
Definition parts (p : string) : list string :=
  List.filter (fun x => negb (String.eqb x EmptyString) && negb (String.eqb x "."))
              (Py.split "/"%char p).

(** [Path(p).name] *)
Definition name (p : string) : string := List.last (parts p) EmptyString.

(** [Path(p).suffix]: from the last dot of the name, unless that dot is
    the first or the last character. *)
Definition suffix (p : string) : string :=
  let n := name p in
  match Py.rfind_dot n with
  | Some i =>
      if (0 <? i)%nat && (i <? String.length n - 1)%nat
      then String.substring i (String.length n - i) n
      else EmptyString
  | None => EmptyString
  end.

End Path.

(** ** Data model ([app/models/document_models.py]) *)

Module DocumentMetadata.
Record t := mk {
  filename : string;
  size_bytes : Z;
  mime : string;
  title : option string;
  author : option string;
  created : option Z;
  modified : option Z;
  pages : option Z;
  lines : option Z;
  paragraphs : option Z;
  tables : option Z;
  creator : option string;
  extra : list (string * string)
}.

Definition with_filename (f : string) (m : t) : t :=
  mk f (size_bytes m) (mime m) (title m) (author m) (created m) (modified m)
     (pages m) (lines m) (paragraphs m) (tables m) (creator m) (extra m).
End DocumentMetadata.

Module ParsedDocument.
Record t := mk {
  id : string;
  filename : string;
  path : string;
  text : string;
  metadata : DocumentMetadata.t;
  keywords : list string;
  topics : list string;
  summary : option string
}.

Definition with_id (i : string) (d : t) : t :=
  mk i (filename d) (path d) (text d) (metadata d) (keywords d) (topics d) (summary d).
Definition with_filename (f : string) (d : t) : t :=
  mk (id d) f (path d) (text d) (metadata d) (keywords d) (topics d) (summary d).
Definition with_path (p : string) (d : t) : t :=
  mk (id d) (filename d) p (text d) (metadata d) (keywords d) (topics d) (summary d).
Definition with_text (x : string) (d : t) : t :=
  mk (id d) (filename d) (path d) x (metadata d) (keywords d) (topics d) (summary d).
Definition with_keywords (k : list string) (d : t) : t :=
  mk (id d) (filename d) (path d) (text d) (metadata d) k (topics d) (summary d).
Definition with_topics (k : list string) (d : t) : t :=
  mk (id d) (filename d) (path d) (text d) (metadata d) (keywords d) k (summary d).
Definition with_summary (s : option string) (d : t) : t :=
  mk (id d) (filename d) (path d) (text d) (metadata d) (keywords d) (topics d) s.
End ParsedDocument.

(** [DocumentExtraction] of [local_handlers.py]: what enrichment returns. *)
Module DocumentExtraction.
Record t := mk {
  keywords : list string;
  topics : list string;
  summary : string
}.
End DocumentExtraction.

(** A document of the [docs] collection.  [raw_doc] carries the fields that
    [model_dump] writes, with [_id] held in [ParsedDocument.id]; [summaries]
    is the embedded document that [set_summary] fills ([∅] when the field is
    absent), keyed by the integer whose decimal form is the field name, and
    [uploaded_at] the sort key of [list_meta] ([None] when the field is
    absent). *)
Record RawDoc := mkRaw {
  raw_doc : ParsedDocument.t;
  summaries : gmap Z string;
  uploaded_at : option Z
}.

Definition raw_id (r : RawDoc) : string := ParsedDocument.id (raw_doc r).
Definition raw_path (r : RawDoc) : string := ParsedDocument.path (raw_doc r).

(** ** Exceptions, the world, and the coroutine monad *)

Inductive exn :=
| StoreError (msg : string)        (* a pymongo error: the driver call failed *)
| OperationFailure (msg : string)  (* the server rejected the command *)
| ParseError (msg : string)        (* raised by a format parser *)
| EnrichmentError (msg : string)   (* raised by the enrichment chain *)
| ValueError (msg : string).

Definition exn_str (e : exn) : string :=
  match e with
  | StoreError m | OperationFailure m | ParseError m
  | EnrichmentError m | ValueError m => m
  end.

Inductive outcome (A : Type) :=
| Ok (a : A)
| Raise (e : exn).
Arguments Ok {A} a.
Arguments Raise {A} e.

Inductive level := INFO | WARNING | ERROR.

Record World := mkWorld {
  docs : list RawDoc;                (* the collection, in natural order *)
  log : list (level * string);
  faults : list (option string);     (* one entry per awaited driver call *)
  entropy : list N                   (* consumed by uuid4 *)
}.

Definition with_docs (c : list RawDoc) (w : World) : World :=
  mkWorld c (log w) (faults w) (entropy w).
Definition with_log (l : list (level * string)) (w : World) : World :=
  mkWorld (docs w) l (faults w) (entropy w).
Definition with_faults (f : list (option string)) (w : World) : World :=
  mkWorld (docs w) (log w) f (entropy w).
Definition with_entropy (e : list N) (w : World) : World :=
  mkWorld (docs w) (log w) (faults w) e.

Definition M (A : Type) : Type := World -> outcome A * World.

Definition ret {A} (a : A) : M A := fun w => (Ok a, w).
Definition raise {A} (e : exn) : M A := fun w => (Raise e, w).
Definition bind {A B} (m : M A) (k : A -> M B) : M B :=
  fun w => match m w with
           | (Ok a, w') => k a w'
           | (Raise e, w') => (Raise e, w')
           end.
(** [try: m except Exception as e: h e] *)
Definition try_except {A} (m : M A) (h : exn -> M A) : M A :=
  fun w => match m w with
           | (Ok a, w') => (Ok a, w')
           | (Raise e, w') => h e w'
           end.

Declare Scope coro_scope.
Delimit Scope coro_scope with coro.
Notation "'let*' x ':=' m 'in' k" := (bind m (fun x => k))
  (at level 10, x name, m at level 99, k at level 200) : coro_scope.
Notation "m ';;' k" := (bind m (fun _ => k))
  (at level 100, k at level 200, right associativity) : coro_scope.
Local Open Scope coro_scope.

Definition logger (l : level) (msg : string) : M unit :=
  fun w => (Ok tt, with_log (log w ++ [(l, msg)]) w).
Definition logger_info := logger INFO.
Definition logger_warning := logger WARNING.
Definition logger_error := logger ERROR.

(** Awaiting a Motor call consumes one entry of the fault schedule, which
    decides whether the driver raises before the command takes effect.  An
    exhausted schedule means a healthy connection. *)
Definition next_fault (w : World) : option string :=
  match faults w with
  | f :: _ => f
  | [] => None
  end.

Definition tick (w : World) : World := with_faults (tail (faults w)) w.

Definition motor_await : M unit :=
  fun w => match next_fault w with
           | Some msg => (Raise (StoreError msg), tick w)
           | None => (Ok tt, tick w)
           end.

(** [uuid.uuid4().hex]: thirty-two lower-case hexadecimal digits. *)
Definition hex_digit (n : N) : ascii :=
  match n with
  | 0 => "0" | 1 => "1" | 2 => "2" | 3 => "3" | 4 => "4" | 5 => "5"
  | 6 => "6" | 7 => "7" | 8 => "8" | 9 => "9" | 10 => "a" | 11 => "b"
  | 12 => "c" | 13 => "d" | 14 => "e" | _ => "f"
  end%N%char.

Fixpoint hex_digits (k : nat) (n : N) : string :=
  match k with
  | O => EmptyString
  | S k' => hex_digits k' (n / 16)%N +:+ String (hex_digit (n mod 16)%N) EmptyString
  end.

Definition fresh_hex (w : World) : string :=
  hex_digits 32 (match entropy w with n :: _ => n | [] => 0%N end).

Definition uuid4_hex : M string :=
  fun w => (Ok (fresh_hex w), with_entropy (tail (entropy w)) w).

(** ** The [docs] collection: the MongoDB commands the repository issues *)

Module Collection.

(** A query clause [{"topics": t}] or [{"keywords": k}]: equality against
    an array field matches when the array holds the value. *)
Inductive clause :=
| Topics (t : string)
| Keywords (k : string).

Definition mem (x : string) (l : list string) : bool :=
  existsb (String.eqb x) l.

Definition matches (c : clause) (r : RawDoc) : bool :=
  match c with
  | Topics t => mem t (ParsedDocument.topics (raw_doc r))
  | Keywords k => mem k (ParsedDocument.keywords (raw_doc r))
  end.

Definition id_is (i : string) (r : RawDoc) : bool := String.eqb (raw_id r) i.
Definition path_is (p : string) (r : RawDoc) : bool := String.eqb (raw_path r) p.

(** [find_one(filter)]: the first match in natural order. *)
Definition find_one (f : RawDoc -> bool) (c : list RawDoc) : option RawDoc :=
  List.find f c.

(** [replace_one({"_id": i}, r, upsert=True)]: the matching document is
    replaced wholesale where it stands; without a match [r] is inserted. *)
Fixpoint replace_one (i : string) (r : RawDoc) (c : list RawDoc) : list RawDoc :=
  match c with
  | [] => [r]
  | d :: c' => if id_is i d then r :: c' else d :: replace_one i r c'
  end.

(** [delete_one({"_id": i})] *)
Fixpoint delete_one (i : string) (c : list RawDoc) : list RawDoc :=
  match c with
  | [] => []
  | d :: c' => if id_is i d then c' else d :: delete_one i c'
  end.

(** [delete_many({"path": p})] and its [deleted_count]. *)
Definition delete_many (p : string) (c : list RawDoc) : list RawDoc :=
  List.filter (fun d => negb (path_is p d)) c.
Definition deleted_count (p : string) (c : list RawDoc) : Z :=
  Z.of_nat (length (List.filter (path_is p) c)).

(** [count_documents({"_id": i}, limit=1)] *)
Definition count_documents (i : string) (c : list RawDoc) : Z :=
  Z.of_nat (length (take 1 (List.filter (id_is i) c))).

(** [update_one({"_id": i}, {"$set": {"summaries.<len>": s}})]: the first
    match gets the one entry of its [summaries] document set; nothing
    happens without a match. *)
Definition set_summaries_entry (len : Z) (s : string) (r : RawDoc) : RawDoc :=
  mkRaw (raw_doc r) (<[len := s]> (summaries r)) (uploaded_at r).

Fixpoint update_one (i : string) (len : Z) (s : string) (c : list RawDoc)
  : list RawDoc :=
  match c with
  | [] => []
  | d :: c' =>
      if id_is i d then set_summaries_entry len s d :: c'
      else d :: update_one i len s c'
  end.

(** [.sort("uploaded_at", -1)]: descending, a missing field ordering below
    every value; documents with equal keys keep their natural order. *)
Definition key_lt (a b : option Z) : bool :=
  match a, b with
  | None, Some _ => true
  | Some x, Some y => (x <? y)%Z
  | _, None => false
  end.

Fixpoint insert_desc (x : RawDoc) (l : list RawDoc) : list RawDoc :=
  match l with
  | [] => [x]
  | y :: l' =>
      if key_lt (uploaded_at x) (uploaded_at y) then y :: insert_desc x l'
      else x :: l
  end.

Definition sort_desc (c : list RawDoc) : list RawDoc :=
  foldr insert_desc [] c.

(** [find({"$or": cs})]: the server refuses an empty [$or] array. *)
Definition find_or (cs : list clause) (c : list RawDoc) : outcome (list RawDoc) :=
  match cs with
  | [] => Raise (OperationFailure "$or/$and/$nor entries need to be non-empty array")
  | _ => Ok (List.filter (fun d => existsb (fun q => matches q d) cs) c)
  end.

End Collection.

(** ** [MongoDocRepo] ([app/db/mongo/doc_repo.py]) *)

(** [doc.model_dump()] with [id] moved to [_id]: exactly the model's fields,
    so neither [summaries] nor [uploaded_at] is written. *)
Definition model_dump (doc : ParsedDocument.t) : RawDoc := mkRaw doc ∅ None.

(** The model rebuilt from a stored document, [_id] renamed to [id]:
    fields the model does not declare are ignored. *)
Definition of_raw (r : RawDoc) : ParsedDocument.t := raw_doc r.

(** The same after the projection that excludes [text], the field being
    set to the empty string before validation. *)
Definition of_raw_meta (r : RawDoc) : ParsedDocument.t :=
  ParsedDocument.with_text EmptyString (raw_doc r).

(** The constructor binds [self.db] and [self.collection], so the guard of
    [_ensure_connection] never fires on a constructed repository. *)
Definition _ensure_connection : M unit := ret tt.

Definition get_docs : M (list RawDoc) := fun w => (Ok (docs w), w).
Definition put_docs (c : list RawDoc) : M unit := fun w => (Ok tt, with_docs c w).

Definition upsert (doc : ParsedDocument.t) : M string :=
  _ensure_connection;;
  let* doc :=
    (if Py.truthy (ParsedDocument.id doc) then ret doc
     else let* u := uuid4_hex in ret (ParsedDocument.with_id u doc)) in
  let doc_dict := model_dump doc in
  motor_await;;
  let* c := get_docs in
  put_docs (Collection.replace_one (raw_id doc_dict) doc_dict c);;
  ret (raw_id doc_dict).

Definition delete (doc_id : string) : M unit :=
  _ensure_connection;;
  motor_await;;
  let* c := get_docs in
  put_docs (Collection.delete_one doc_id c).

Definition delete_by_path (path : string) : M Z :=
  _ensure_connection;;
  motor_await;;
  let* c := get_docs in
  put_docs (Collection.delete_many path c);;
  ret (Collection.deleted_count path c).

Definition get (doc_id : string) : M (option ParsedDocument.t) :=
  _ensure_connection;;
  motor_await;;
  let* c := get_docs in
  match Collection.find_one (Collection.id_is doc_id) c with
  | None => ret None
  | Some raw => ret (Some (of_raw raw))
  end.

(** [list_meta] and [query] are asynchronous generators; the model gives the
    sequence a consumer obtains by iterating to exhaustion, or the exception
    the iteration raises. *)
Definition list_meta : M (list ParsedDocument.t) :=
  _ensure_connection;;
  motor_await;;
  let* c := get_docs in
  ret (map of_raw_meta (Collection.sort_desc c)).

Definition query (topic keyword : option string) : M (list ParsedDocument.t) :=
  _ensure_connection;;
  match topic, keyword with
  | None, None => raise (ValueError "At least one of topic or keyword must be provided")
  | _, _ =>
      let or1 := match topic with
                 | Some t => if Py.truthy t then [Collection.Topics t] else []
                 | None => []
                 end in
      let or2 := match keyword with
                 | Some k => if Py.truthy k then [Collection.Keywords k] else []
                 | None => []
                 end in
      motor_await;;
      let* c := get_docs in
      match Collection.find_or (or1 ++ or2) c with
      | Raise e => raise e
      | Ok cursor => ret (map of_raw_meta cursor)
      end
  end.

Definition exists_ (doc_id : string) : M bool :=
  _ensure_connection;;
  motor_await;;
  let* c := get_docs in
  ret (0 <? Collection.count_documents doc_id c)%Z.

Definition get_id_by_path (path : string) : M (option string) :=
  _ensure_connection;;
  motor_await;;
  let* c := get_docs in
  match Collection.find_one (Collection.path_is path) c with
  | Some result => ret (Some (raw_id result))
  | None => ret None
  end.

Definition set_summary (doc_id : string) (length : Z) (summary : string) : M unit :=
  _ensure_connection;;
  motor_await;;
  let* c := get_docs in
  put_docs (Collection.update_one doc_id length summary c).

(** ** Parsers and enrichment ([app/ingestion]) *)

Inductive Parser := TextParser | PDFParser | DocxParser.

Definition class_name (ps : Parser) : string :=
  match ps with
  | TextParser => "TextParser"
  | PDFParser => "PDFParser"
  | DocxParser => "DocxParser"
  end.

(** The registry the [@register] decorators build when every parser module
    imports, in import order. *)
Definition REGISTRY : list (string * Parser) :=
  [ (".docx", DocxParser); (".doc", DocxParser); (".pdf", PDFParser);
    (".txt", TextParser); (".csv", TextParser); (".md", TextParser);
    (".json", TextParser) ].

(** What the program takes from outside the repository. *)
Record Env := mkEnv {
  (* REGISTRY as populated at import time (a parser module that fails to
     import is skipped) *)
  registry : list (string * Parser);
  (* the format library of a parser run on a file: extracted text and the
     metadata it reports, or the exception it raises *)
  extract : Parser -> string -> outcome (string * DocumentMetadata.t);
  (* hashlib.md5(text.encode()).hexdigest() *)
  md5_hexdigest : string -> string;
  (* str(Path(p).absolute()) *)
  absolute : string -> string;
  (* the prompt | llm | parser chain on the given content *)
  chain_ainvoke : string -> outcome DocumentExtraction.t;
  (* the os.path.join(root, filename) of os.walk, in visiting order *)
  os_walk : string -> list string
}.

Fixpoint registry_get (reg : list (string * Parser)) (suffix : string) : option Parser :=
  match reg with
  | [] => None
  | (k, ps) :: reg' => if String.eqb k suffix then Some ps else registry_get reg' suffix
  end.

(** [suffix in registry] *)
Definition registry_mem (reg : list (string * Parser)) (suffix : string) : bool :=
  match registry_get reg suffix with Some _ => true | None => false end.

(** [BaseParser.parse]: the three parsers assemble their result alike. *)
Definition parse (env : Env) (ps : Parser) (path : string) : M ParsedDocument.t :=
  match extract env ps path with
  | Raise e => raise e
  | Ok (text, meta) =>
      ret (ParsedDocument.mk
             (md5_hexdigest env text)
             (Path.name path)
             (absolute env path)
             text
             (DocumentMetadata.with_filename (Path.name path) meta)
             [] [] None)
  end.

(** [app/ingestion/loader.py] *)
Definition parse_file (env : Env) (path : string) : M ParsedDocument.t :=
  let suffix := Py.lower (Path.suffix path) in
  match registry_get (registry env) suffix with
  | None =>
      logger_warning ("Unsupported file type: " +:+ suffix +:+ ". Supported formats: "
                      +:+ Py.join ", " (map fst (registry env)));;
      raise (ValueError ("Unsupported file type: " +:+ suffix))
  | Some ps =>
      logger_info ("Parsing file " +:+ path +:+ " using " +:+ class_name ps);;
      parse env ps path
  end.

Definition extract_document_info (env : Env) (file_content : string)
  : M DocumentExtraction.t :=
  match chain_ainvoke env (Py.take 8000%N file_content) with
  | Raise e => raise e
  | Ok result => ret result
  end.

(** ** [DocumentHandler] ([app/ingestion/watchers/local/local_handlers.py]) *)

Definition str_of_Z (z : Z) : string := NilZero.string_of_int (Z.to_int z).

(** The part of [process_file] after the existence check. *)
Definition process_new_file (env : Env) (file_path : string) : M unit :=
  if negb (registry_mem (registry env) (Py.lower (Path.suffix file_path))) then
    logger_info ("Skipping unsupported file: " +:+ file_path +:+ " (supported: "
                 +:+ Py.join ", " (map fst (registry env)) +:+ ")")
  else
    logger_info ("Processing new file: " +:+ file_path);;
    let* document := parse_file env file_path in
    let* doc_info := extract_document_info env (ParsedDocument.text document) in
    let document := ParsedDocument.with_keywords (DocumentExtraction.keywords doc_info) document in
    let document := ParsedDocument.with_topics (DocumentExtraction.topics doc_info) document in
    let document := ParsedDocument.with_summary (Some (DocumentExtraction.summary doc_info)) document in
    let* doc_id := upsert document in
    logger_info ("Document processed successfully: " +:+ doc_id).

Definition process_file (env : Env) (file_path : string) (force_update : bool) : M unit :=
  try_except
    (let* doc_id := get_id_by_path file_path in
     match doc_id with
     | Some doc_id =>
         if force_update then
           logger_info ("Force updating existing document: " +:+ doc_id);;
           delete_by_path file_path;;
           process_new_file env file_path
         else
           logger_info ("Document already exists, skipping: " +:+ doc_id)
     | None => process_new_file env file_path
     end)
    (fun e => logger_error ("Error processing file " +:+ file_path +:+ ": " +:+ exn_str e)).

(** The loop of [_cleanup_deleted_files_in_directory] over the documents
    [list_meta] yields. *)
Fixpoint cleanup_loop (dir_path : string) (existing_file_paths : gset string)
    (cursor : list ParsedDocument.t) (deleted_count : Z) : M Z :=
  match cursor with
  | [] => ret deleted_count
  | doc :: cursor' =>
      if Py.truthy (ParsedDocument.path doc)
         && Py.startswith (ParsedDocument.path doc) dir_path then
        if bool_decide (ParsedDocument.path doc ∈ existing_file_paths) then
          cleanup_loop dir_path existing_file_paths cursor' deleted_count
        else
          logger_info ("Deleting orphaned document: " +:+ ParsedDocument.id doc
                       +:+ " (path: " +:+ ParsedDocument.path doc +:+ ")");;
          delete (ParsedDocument.id doc);;
          cleanup_loop dir_path existing_file_paths cursor' (deleted_count + 1)%Z
      else cleanup_loop dir_path existing_file_paths cursor' deleted_count
  end.

Definition _cleanup_deleted_files_in_directory (dir_path : string)
    (existing_file_paths : gset string) : M unit :=
  try_except
    (logger_info ("Cleaning up deleted files in directory: " +:+ dir_path);;
     let* cursor := list_meta in
     let* deleted_count := cleanup_loop dir_path existing_file_paths cursor 0%Z in
     if (0 <? deleted_count)%Z then
       logger_info ("Cleaned up " +:+ str_of_Z deleted_count
                    +:+ " orphaned documents from directory: " +:+ dir_path)
     else
       logger_info ("No orphaned documents found in directory: " +:+ dir_path))
    (fun e => logger_error ("Error cleaning up deleted files in directory "
                            +:+ dir_path +:+ ": " +:+ exn_str e)).

(** The walk of [process_directory]: each file is recorded, then processed. *)
Fixpoint walk_loop (env : Env) (files : list string) (existing_file_paths : gset string)
  : M (gset string) :=
  match files with
  | [] => ret existing_file_paths
  | file_path :: files' =>
      let existing_file_paths := existing_file_paths ∪ {[file_path]} in
      process_file env file_path false;;
      walk_loop env files' existing_file_paths
  end.

Definition process_directory (env : Env) (dir_path : string) : M unit :=
  try_except
    (logger_info ("Processing directory: " +:+ dir_path);;
     let* existing_file_paths := walk_loop env (os_walk env dir_path) ∅ in
     _cleanup_deleted_files_in_directory dir_path existing_file_paths)
    (fun e => logger_error ("Error processing directory " +:+ dir_path +:+ ": " +:+ exn_str e)).

Definition handle_deleted_file (file_path : string) : M unit :=
  try_except
    (logger_info ("Handling deleted file: " +:+ file_path);;
     let* doc_id := get_id_by_path file_path in
     if Py.truthy_opt doc_id then
       let doc_id := default EmptyString doc_id in
       delete doc_id;;
       logger_info ("Document with ID " +:+ doc_id +:+ " deleted successfully")
     else
       logger_warning ("No document found for deleted file: " +:+ file_path))
    (fun e => logger_error ("Error handling deleted file " +:+ file_path +:+ ": " +:+ exn_str e)).

Definition handle_moved_file (env : Env) (src_path dest_path : string) : M unit :=
  try_except
    (let src_filename := Path.name src_path in
     let dest_filename := Path.name dest_path in
     logger_info ("Handling moved file from " +:+ src_path +:+ " to " +:+ dest_path);;
     let* doc_id := get_id_by_path src_path in
     if Py.truthy_opt doc_id then
       let doc_id := default EmptyString doc_id in
       let* doc := get doc_id in
       match doc with
       | Some doc =>
           let doc := ParsedDocument.with_path dest_path doc in
           let doc := if negb (String.eqb src_filename dest_filename)
                      then ParsedDocument.with_filename dest_filename doc else doc in
           upsert doc;;
           logger_info ("Document with ID " +:+ doc_id +:+ " updated with new path: " +:+ dest_path)
       | None =>
           logger_warning ("Document with ID " +:+ doc_id +:+ " found but could not be retrieved");;
           process_file env dest_path false
       end
     else
       logger_info ("No document found for source path " +:+ src_path
                    +:+ ", processing " +:+ dest_path +:+ " as a new file");;
       process_file env dest_path false)
    (fun e => logger_error ("Error handling moved file from " +:+ src_path
                            +:+ " to " +:+ dest_path +:+ ": " +:+ exn_str e)).

(** A watchdog event. *)
Record Event := mkEvent {
  src_path : string;
  dest_path : string;
  is_directory : bool
}.

(** [_run_coroutine]: the coroutine is run on the bound loop; an exception
    met while running it is logged here and [None] is returned.  The hand-off
    between the observer thread and the loop is not part of the model, which
    runs each event's coroutine to completion. *)
Definition _run_coroutine (coro : M unit) : M (option unit) :=
  try_except
    (coro;; ret (Some tt))
    (fun e => logger_error ("Error running coroutine: " +:+ exn_str e);; ret None).

Definition on_created (env : Env) (event : Event) : M (option unit) :=
  logger_info ("Created: " +:+ src_path event);;
  if is_directory event then _run_coroutine (process_directory env (src_path event))
  else _run_coroutine (process_file env (src_path event) false).

Definition on_modified (env : Env) (event : Event) : M (option unit) :=
  logger_info ("Modified: " +:+ src_path event);;
  if negb (is_directory event) then _run_coroutine (process_file env (src_path event) true)
  else ret None.

Definition on_deleted (event : Event) : M (option unit) :=
  logger_info ("Deleted: " +:+ src_path event);;
  if negb (is_directory event) then _run_coroutine (handle_deleted_file (src_path event))
  else ret None.

Definition on_moved (env : Env) (event : Event) : M (option unit) :=
  logger_info ("Moved from " +:+ src_path event +:+ " to " +:+ dest_path event);;
  if is_directory event then _run_coroutine (process_directory env (dest_path event))
  else _run_coroutine (handle_moved_file env (src_path event) (dest_path event)).


(** ** The [get_topics] tool ([app/agent/tools.py]) *)

(** A model instance is truthy and always has the attribute [topics], so
    only the not-found test and the exception handler remain. *)
Definition get_topics (doc_id : string) : M (list string) :=
  try_except
    (let* doc := get doc_id in
     match doc with
     | None => ret ["Error: Document with ID " +:+ doc_id +:+ " not found"]
     | Some doc => ret (ParsedDocument.topics doc)
     end)
    (fun e => ret ["Error getting topics: " +:+ exn_str e]).

(** ** Store invariant and auxiliary notions *)

(** Every [_id] is unique (the server enforces it) and truthy ([upsert]
    replaces a falsy id by a fresh uuid before writing). *)
Definition wf_store (c : list RawDoc) : Prop :=
  NoDup (map raw_id c) /\ Forall (fun r => raw_id r <> EmptyString) c.

(** The connection is healthy from [w] on. *)
Definition healthy (w : World) : Prop := faults w = [].

(** One replace-or-insert of a document with a truthy id, or nothing. *)
Definition written (c c' : list RawDoc) : Prop :=
  c' = c \/
  exists d, ParsedDocument.id d <> EmptyString /\
            c' = Collection.replace_one (ParsedDocument.id d) (model_dump d) c.

(** Number of records stored under a path. *)
Definition count_by_path (p : string) (c : list RawDoc) : nat :=
  length (List.filter (Collection.path_is p) c).

(** The records the reconciliation sweep of root [d] must drop, given the
    set of paths observed under [d]. *)
Definition orphan (d : string) (observed : gset string) (r : RawDoc) : bool :=
  Py.startswith (raw_path r) d && negb (bool_decide (raw_path r ∈ observed)).

(** The file cannot be ingested: no parser for its suffix, or its parser
    raises, or enrichment of the parsed text raises. *)
Definition ingestion_fails (env : Env) (p : string) : Prop :=
  registry_mem (registry env) (Py.lower (Path.suffix p)) = false \/
  (exists ps e,
      registry_get (registry env) (Py.lower (Path.suffix p)) = Some ps /\
      extract env ps p = Raise e) \/
  (exists ps text meta e,
      registry_get (registry env) (Py.lower (Path.suffix p)) = Some ps /\
      extract env ps p = Ok (text, meta) /\
      chain_ainvoke env (Py.take 8000 text) = Raise e).

(** The document [handle_moved_file] writes back for a record [doc] moved
    from [src_path] to [dest_path]. *)
Definition moved (src_path dest_path : string) (doc : ParsedDocument.t)
  : ParsedDocument.t :=
  let doc := ParsedDocument.with_path dest_path doc in
  if negb (String.eqb (Path.name src_path) (Path.name dest_path))
  then ParsedDocument.with_filename (Path.name dest_path) doc else doc.

(** A collection none of whose documents has an [uploaded_at] field. *)
Definition undated (c : list RawDoc) : Prop :=
  Forall (fun r => uploaded_at r = None) c.

(** The test the sweep applies to a listed document. *)
Definition swept (d : string) (observed : gset string) (doc : ParsedDocument.t) : bool :=
  Py.truthy (ParsedDocument.path doc)
  && Py.startswith (ParsedDocument.path doc) d
  && negb (bool_decide (ParsedDocument.path doc ∈ observed)).

(** ** The registry decorator ([app/ingestion/parsers/base.py]) *)

(** [REGISTRY[k] = instance]: an existing key keeps its place and takes the
    new value, a new key goes last. *)
Fixpoint registry_set (k : string) (ps : Parser) (reg : list (string * Parser))
  : list (string * Parser) :=
  match reg with
  | [] => [(k, ps)]
  | (k', ps') :: reg' =>
      if String.eqb k' k then (k, ps) :: reg'
      else (k', ps') :: registry_set k ps reg'
  end.

(** The decorator [register] applied to a parser class: one shared instance
    is stored under each lower-cased suffix. *)
Definition register (suffixes : list string) (ps : Parser)
    (reg : list (string * Parser)) : list (string * Parser) :=
  foldl (fun reg suf => registry_set (Py.lower suf) ps reg) reg suffixes.

(** ** The record a successful ingestion writes *)

(** What a parser returns for a file whose format library gave [text] and
    [meta]. *)
Definition parsed (env : Env) (path text : string) (meta : DocumentMetadata.t)
  : ParsedDocument.t :=
  ParsedDocument.mk (md5_hexdigest env text) (Path.name path) (absolute env path)
    text (DocumentMetadata.with_filename (Path.name path) meta) [] [] None.

(** The three assignments [process_file] makes from the enrichment result. *)
Definition enriched (info : DocumentExtraction.t) (doc : ParsedDocument.t)
  : ParsedDocument.t :=
  ParsedDocument.with_summary (Some (DocumentExtraction.summary info))
    (ParsedDocument.with_topics (DocumentExtraction.topics info)
       (ParsedDocument.with_keywords (DocumentExtraction.keywords info) doc)).

(** The file can be ingested: its suffix has a parser, the parser gives
    [text] and [meta], and enrichment of the text gives [info]. *)
Definition ingestible (env : Env) (p text : string) (meta : DocumentMetadata.t)
    (info : DocumentExtraction.t) : Prop :=
  exists ps,
    registry_get (registry env) (Py.lower (Path.suffix p)) = Some ps /\
    extract env ps p = Ok (text, meta) /\
    chain_ainvoke env (Py.take 8000 text) = Ok info.



(** Two collections that agree, record by record, on the model fields and
    on the sort key; they may differ in [summaries] only. *)
Definition same_model (c c' : list RawDoc) : Prop :=
  Forall2 (fun x y => raw_doc x = raw_doc y /\ uploaded_at x = uploaded_at y) c c'.

(** ** Sample environment and worlds *)

Definition sample_meta : DocumentMetadata.t :=
  DocumentMetadata.mk EmptyString 12 "text/plain" None None None None None
                      (Some 1%Z) None None None [].

Definition sample_env : Env :=
  mkEnv REGISTRY
    (fun _ p => if String.eqb p "/data/inbox/corrupt.pdf"
                then Raise (ParseError "EOF marker not found")
                else Ok ("text of " +:+ p, sample_meta))
    (fun t => "md5-" +:+ t)
    (fun p => p)
    (fun c => if String.eqb c "text of /data/inbox/down.txt"
              then Raise (EnrichmentError "llm unavailable")
              else Ok (DocumentExtraction.mk ["k"] ["t"] ("summary of " +:+ c)))
    (fun d => if String.eqb d "/data/inbox"
              then ["/data/inbox/a.txt"; "/data/inbox/sub/b.md"; "/data/inbox/c.bin"]
              else []).

(** The same environment once the language model is unreachable. *)
Definition sample_env_down : Env :=
  mkEnv (registry sample_env) (extract sample_env) (md5_hexdigest sample_env)
        (absolute sample_env)
        (fun _ => Raise (EnrichmentError "llm unavailable"))
        (os_walk sample_env).

Definition empty_world : World := mkWorld [] [] [] [].

(** The document stored for [a.txt] in [world_a]. *)
Definition doc_a : ParsedDocument.t :=
  ParsedDocument.mk "md5-text of /data/inbox/a.txt" "a.txt" "/data/inbox/a.txt"
    "text of /data/inbox/a.txt" (DocumentMetadata.with_filename "a.txt" sample_meta)
    ["k"] ["t"] (Some "summary of text of /data/inbox/a.txt").

(** The world after [a.txt] and then [sub/b.md] have been ingested. *)
Definition world_ab : World :=
  snd (process_file sample_env "/data/inbox/sub/b.md" false
         (snd (process_file sample_env "/data/inbox/a.txt" false empty_world))).

Definition doc_b : ParsedDocument.t :=
  ParsedDocument.mk "md5-text of /data/inbox/sub/b.md" "b.md" "/data/inbox/sub/b.md"
    "text of /data/inbox/sub/b.md" (DocumentMetadata.with_filename "b.md" sample_meta)
    ["k"] ["t"] (Some "summary of text of /data/inbox/sub/b.md").

(** A store that knows [a.txt] and a file [old.txt] that is no longer on
    disk. *)
Definition doc_old : ParsedDocument.t :=
  ParsedDocument.mk "md5-text of /data/inbox/old.txt" "old.txt" "/data/inbox/old.txt"
    "text of /data/inbox/old.txt" (DocumentMetadata.with_filename "old.txt" sample_meta)
    ["k"] ["t"] (Some "summary of text of /data/inbox/old.txt").

Definition world_stale : World :=
  with_docs [model_dump doc_a; model_dump doc_old] empty_world.

(** An environment in which every file holds the same text, and the world
    after [a.txt] has been ingested in it. *)
Definition sample_env_same : Env :=
  mkEnv REGISTRY
    (fun _ _ => Ok ("same text", sample_meta))
    (fun t => "md5-" +:+ t)
    (fun p => p)
    (fun c => Ok (DocumentExtraction.mk ["k"] ["t"] ("summary of " +:+ c)))
    (fun _ => []).

Definition record_same : RawDoc :=
  model_dump
    (enriched (DocumentExtraction.mk ["k"] ["t"] "summary of same text")
       (parsed sample_env_same "/data/inbox/a.txt" "same text" sample_meta)).

Definition world_same : World := with_docs [record_same] empty_world.

(** A text of exactly 8000 characters. *)
Definition long_text : string :=
  string_of_list_ascii (repeat "x"%char (N.to_nat 8000)).

(** A world whose next driver call fails. *)
Definition faulty_world : World :=
  mkWorld [] [] [Some "connection refused"] [].

(** The world after [a.txt] has been ingested into the empty store. *)
Definition world_a : World :=
  snd (process_file sample_env "/data/inbox/a.txt" false empty_world).

(** Resolve the next driver fault of a world derived from a healthy one. *)
Ltac no_fault Hh :=
  match goal with
  | |- context [next_fault ?w1] =>
      replace (next_fault w1) with (@None string)
        by (unfold next_fault, tick; simpl; unfold healthy in Hh;
            rewrite ?Hh; reflexivity)
  end.

Ltac healthy_tac :=
  unfold healthy, tick in *; simpl in *; intros;
  repeat match goal with
         | H : faults _ = [] |- _ => rewrite !H; simpl
         end;
  auto.


(** * Properties *)

(** ** The collection commands *)

Section CollectionFacts.
Import Collection.

Lemma id_is_true i r : id_is i r = true <-> raw_id r = i.
Proof. unfold id_is. apply String.eqb_eq. Qed.

Lemma id_is_false i r : id_is i r = false <-> raw_id r <> i.
Proof. unfold id_is. apply String.eqb_neq. Qed.

Lemma path_is_true p r : path_is p r = true <-> raw_path r = p.
Proof. unfold path_is. apply String.eqb_eq. Qed.

Lemma path_is_false p r : path_is p r = false <-> raw_path r <> p.
Proof. unfold path_is. apply String.eqb_neq. Qed.

Lemma wf_store_nil : wf_store [].
Proof. split; constructor. Qed.

Lemma replace_one_ids_mem i r c :
  raw_id r = i -> i ∈ map raw_id c ->
  map raw_id (replace_one i r c) = map raw_id c.
Proof.
  intros Hr. induction c as [|d c IH]; simpl; intros Hin.
  - inversion Hin.
  - destruct (id_is i d) eqn:E; simpl.
    + apply id_is_true in E. congruence.
    + apply id_is_false in E. f_equal. apply IH.
      apply elem_of_cons in Hin as [Hin|Hin]; [congruence|done].
Qed.

Lemma replace_one_ids_fresh i r c :
  raw_id r = i -> i ∉ map raw_id c ->
  replace_one i r c = c ++ [r].
Proof.
  intros Hr. induction c as [|d c IH]; simpl; intros Hin; [done|].
  apply not_elem_of_cons in Hin as [Hne Hin].
  destruct (id_is i d) eqn:E.
  - apply id_is_true in E. congruence.
  - f_equal. by apply IH.
Qed.

Lemma replace_one_elem i r c x :
  x ∈ replace_one i r c -> x = r \/ x ∈ c.
Proof.
  induction c as [|d c IH]; simpl.
  - intros H%list_elem_of_singleton. by left.
  - destruct (id_is i d); intros H%elem_of_cons.
    + destruct H as [->|H]; [by left|right; by right].
    + destruct H as [->|H]; [right; by left|].
      destruct (IH H) as [->|?]; [by left|right; by right].
Qed.

Lemma replace_one_wf r c :
  raw_id r <> EmptyString -> wf_store c -> wf_store (replace_one (raw_id r) r c).
Proof.
  intros Hne [Hnd Hall]. split.
  - destruct (decide (raw_id r ∈ map raw_id c)) as [Hin|Hin].
    + by rewrite replace_one_ids_mem.
    + rewrite replace_one_ids_fresh by done.
      rewrite map_app. simpl. apply NoDup_app. split; [done|].
      split; [|apply NoDup_singleton].
      intros x Hx Hx'. apply list_elem_of_singleton in Hx'. by subst.
  - apply Forall_forall. intros x Hx.
    destruct (replace_one_elem _ _ _ _ Hx) as [->|Hx']; [done|].
    by eapply Forall_forall in Hall.
Qed.

Lemma delete_one_sublist i c : delete_one i c `sublist_of` c.
Proof.
  induction c as [|d c IH]; simpl; [done|].
  destruct (id_is i d).
  - by apply sublist_cons.
  - by apply sublist_skip.
Qed.

Lemma filter_bool_sublist (f : RawDoc -> bool) c : List.filter f c `sublist_of` c.
Proof.
  induction c as [|d c IH]; simpl; [done|].
  destruct (f d); [by apply sublist_skip|by apply sublist_cons].
Qed.

Lemma delete_many_sublist p c : delete_many p c `sublist_of` c.
Proof. apply filter_bool_sublist. Qed.

Lemma wf_store_sublist c c' : c' `sublist_of` c -> wf_store c -> wf_store c'.
Proof.
  intros Hs [Hnd Hall]. split.
  - eapply sublist_NoDup; [exact Hnd|by apply (fmap_sublist raw_id)].
  - eapply Forall_forall. intros x Hx.
    eapply Forall_forall in Hall; [exact Hall|].
    by eapply elem_of_sublist.
Qed.

(** With unique ids, deleting by id removes exactly the records bearing
    that id. *)
Lemma delete_one_filter i c :
  NoDup (map raw_id c) ->
  delete_one i c = List.filter (fun r => negb (id_is i r)) c.
Proof.
  induction c as [|d c IH]; simpl; [done|].
  intros Hnd. apply NoDup_cons in Hnd as [Hd Hnd].
  destruct (id_is i d) eqn:E; simpl.
  - apply id_is_true in E. subst i.
    symmetry. apply forallb_filter_id. apply forallb_forall.
    intros x Hx. apply negb_true_iff, id_is_false.
    intros Heq. apply Hd. rewrite <- Heq.
    apply list_elem_of_fmap. exists x. split; [done|]. by apply list_elem_of_In.
  - f_equal. by apply IH.
Qed.

Lemma update_one_ids i len s c :
  map raw_id (update_one i len s c) = map raw_id c.
Proof.
  induction c as [|d c IH]; simpl; [done|].
  destruct (id_is i d); simpl; [done|]. by rewrite IH.
Qed.

Lemma insert_desc_perm x l : insert_desc x l ≡ₚ x :: l.
Proof.
  induction l as [|y l IH]; simpl; [done|].
  destruct (key_lt _ _); [|done].
  rewrite IH. apply Permutation_swap.
Qed.

(** Sorting reorders and neither drops nor repeats a document. *)
Lemma sort_desc_perm c : sort_desc c ≡ₚ c.
Proof.
  induction c as [|x c IH]; simpl; [done|].
  rewrite insert_desc_perm. by rewrite IH.
Qed.

End CollectionFacts.

(** ** The repository methods, run on a world *)

Section RepoFacts.
Import Collection.

Local Arguments String.append : simpl never.

Lemma healthy_next w : healthy w -> next_fault w = None.
Proof. unfold healthy, next_fault. by intros ->. Qed.

Lemma healthy_tick w : healthy w -> healthy (tick w).
Proof. unfold healthy, tick. simpl. by intros ->. Qed.

Lemma get_id_by_path_run p w :
  get_id_by_path p w =
    match next_fault w with
    | Some msg => (Raise (StoreError msg), tick w)
    | None => (Ok (raw_id <$> find_one (path_is p) (docs w)), tick w)
    end.
Proof.
  unfold get_id_by_path, _ensure_connection, bind, ret, motor_await, get_docs.
  destruct (next_fault w); simpl; [done|].
  by destruct (find_one _ _).
Qed.

Lemma get_run i w :
  get i w =
    match next_fault w with
    | Some msg => (Raise (StoreError msg), tick w)
    | None => (Ok (of_raw <$> find_one (id_is i) (docs w)), tick w)
    end.
Proof.
  unfold get, _ensure_connection, bind, ret, motor_await, get_docs.
  destruct (next_fault w); simpl; [done|].
  by destruct (find_one _ _).
Qed.

Lemma delete_run i w :
  delete i w =
    match next_fault w with
    | Some msg => (Raise (StoreError msg), tick w)
    | None => (Ok tt, with_docs (delete_one i (docs w)) (tick w))
    end.
Proof.
  unfold delete, _ensure_connection, bind, ret, motor_await, get_docs, put_docs.
  by destruct (next_fault w).
Qed.

Lemma delete_by_path_run p w :
  delete_by_path p w =
    match next_fault w with
    | Some msg => (Raise (StoreError msg), tick w)
    | None => (Ok (deleted_count p (docs w)),
               with_docs (delete_many p (docs w)) (tick w))
    end.
Proof.
  unfold delete_by_path, _ensure_connection, bind, ret, motor_await, get_docs, put_docs.
  by destruct (next_fault w).
Qed.

Lemma list_meta_run w :
  list_meta w =
    match next_fault w with
    | Some msg => (Raise (StoreError msg), tick w)
    | None => (Ok (map of_raw_meta (sort_desc (docs w))), tick w)
    end.
Proof.
  unfold list_meta, _ensure_connection, bind, ret, motor_await, get_docs.
  by destruct (next_fault w).
Qed.

Lemma set_summary_run i len s w :
  set_summary i len s w =
    match next_fault w with
    | Some msg => (Raise (StoreError msg), tick w)
    | None => (Ok tt, with_docs (update_one i len s (docs w)) (tick w))
    end.
Proof.
  unfold set_summary, _ensure_connection, bind, ret, motor_await, get_docs, put_docs.
  by destruct (next_fault w).
Qed.

(** [upsert] of a document whose id is truthy. *)
Lemma upsert_run doc w :
  Py.truthy (ParsedDocument.id doc) = true ->
  upsert doc w =
    match next_fault w with
    | Some msg => (Raise (StoreError msg), tick w)
    | None => (Ok (ParsedDocument.id doc),
               with_docs (replace_one (ParsedDocument.id doc) (model_dump doc) (docs w))
                         (tick w))
    end.
Proof.
  intros Hid.
  unfold upsert, _ensure_connection, bind, ret, motor_await, get_docs, put_docs.
  rewrite Hid. by destruct (next_fault w).
Qed.

Lemma truthy_true s : Py.truthy s = true <-> s <> EmptyString.
Proof.
  unfold Py.truthy. rewrite negb_true_iff. apply String.eqb_neq.
Qed.

Lemma hex_digits_nonempty k n : hex_digits (S k) n <> EmptyString.
Proof.
  simpl. destruct (hex_digits k (n / 16)%N); discriminate.
Qed.

(** Whatever the id of [doc] and the state of the driver, [upsert] either
    leaves the collection alone or replaces-or-inserts one document with a
    truthy id; it never alters the log. *)
Lemma upsert_effect doc w :
  let r := upsert doc w in
  (healthy w -> healthy (snd r)) /\
  log (snd r) = log w /\
  ((exists e, fst r = Raise e /\ docs (snd r) = docs w) \/
   (exists d, fst r = Ok (ParsedDocument.id d) /\ ParsedDocument.id d <> EmptyString /\
              ParsedDocument.with_id (ParsedDocument.id d) doc = d /\
              docs (snd r) = replace_one (ParsedDocument.id d) (model_dump d) (docs w))).
Proof.
  unfold upsert, _ensure_connection, bind, ret, motor_await, get_docs, put_docs, uuid4_hex.
  destruct (Py.truthy (ParsedDocument.id doc)) eqn:Hid; simpl.
  - destruct (next_fault w) eqn:Hf; simpl.
    + split; [apply healthy_tick|]. split; [done|]. left. eauto.
    + split; [apply healthy_tick|]. split; [done|]. right.
      exists doc. apply truthy_true in Hid. by destruct doc.
  - match goal with |- context [next_fault ?w1] => destruct (next_fault w1) eqn:Hf end; simpl.
    + split; [by intros ?; apply healthy_tick|]. split; [done|]. left. eauto.
    + split; [by intros ?; apply healthy_tick|]. split; [done|]. right.
      exists (ParsedDocument.with_id (fresh_hex w) doc). simpl.
      split; [done|]. split; [apply hex_digits_nonempty|]. done.
Qed.

End RepoFacts.

(** ** What a pipeline step can do to the collection *)

Section PipelineFacts.
Import Collection.

Local Arguments String.append : simpl never.

Variable env : Env.

Lemma written_wf c c' : written c c' -> wf_store c -> wf_store c'.
Proof.
  intros [->|(d & Hd & ->)] Hwf; [done|].
  by apply (replace_one_wf (model_dump d)).
Qed.

Lemma process_new_file_effect p w :
  let r := process_new_file env p w in
  (healthy w -> healthy (snd r)) /\ written (docs w) (docs (snd r)).
Proof.
  unfold process_new_file.
  destruct (registry_mem _ _); simpl.
  2:{ split; [done|]. by left. }
  unfold bind, logger_info, logger, parse_file. simpl.
  destruct (registry_get _ _) as [ps|]; simpl.
  2:{ split; [done|]. by left. }
  unfold parse, bind, raise, ret, logger_info, logger. simpl.
  destruct (extract env ps p) as [[text meta]|e]; simpl.
  2:{ split; [done|]. by left. }
  unfold extract_document_info. simpl.
  destruct (chain_ainvoke env _) as [info|e]; simpl.
  2:{ split; [done|]. by left. }
  match goal with |- context [upsert ?d ?w1] =>
    pose proof (upsert_effect d w1) as (Hh & _ & Hd);
    destruct (upsert d w1) as [[i|e] w2] end; simpl in *.
  - split; [done|].
    destruct Hd as [(e & He & _)|(d & _ & Hne & _ & ->)]; [done|].
    right. eauto.
  - split; [done|].
    destruct Hd as [(e' & _ & ->)|(d & He & _)]; [by left|done].
Qed.

(** The creation flow only appends to the log. *)
Lemma process_new_file_log p w :
  exists l, log (snd (process_new_file env p w)) = log w ++ l.
Proof.
  unfold process_new_file.
  destruct (registry_mem _ _); simpl.
  2:{ by eexists. }
  unfold bind, logger_info, logger, parse_file. simpl.
  destruct (registry_get _ _) as [ps|]; simpl.
  2:{ eexists. by rewrite <- app_assoc. }
  unfold parse, bind, raise, ret, logger_info, logger. simpl.
  destruct (extract env ps p) as [[text meta]|e]; simpl.
  2:{ eexists. by rewrite <- app_assoc. }
  unfold extract_document_info. simpl.
  destruct (chain_ainvoke env _) as [info|e]; simpl.
  2:{ eexists. by rewrite <- app_assoc. }
  match goal with |- context [upsert ?d ?w1] =>
    pose proof (upsert_effect d w1) as (_ & Hl & _);
    destruct (upsert d w1) as [[i|e] w2] end; simpl in *.
  - rewrite Hl. eexists. by rewrite <- !app_assoc.
  - rewrite Hl. eexists. by rewrite <- !app_assoc.
Qed.

Lemma process_file_effect p force w :
  let r := process_file env p force w in
  fst r = Ok tt /\
  (healthy w -> healthy (snd r)) /\
  exists c1, (c1 = docs w \/ c1 = delete_many p (docs w)) /\
             written c1 (docs (snd r)).
Proof.
  unfold process_file, try_except, bind.
  rewrite get_id_by_path_run.
  destruct (next_fault w) eqn:Hf; simpl.
  { split; [done|]. split; [healthy_tac|].
    exists (docs w). split; [by left|by left]. }
  destruct (find_one (path_is p) (docs w)) as [r0|] eqn:Hfind; simpl.
  - destruct force; simpl.
    + rewrite delete_by_path_run. simpl.
      match goal with |- context [next_fault ?w1] =>
        destruct (next_fault w1) eqn:Hf2 end; simpl.
      { split; [done|]. split; [healthy_tac|].
        exists (docs w). split; [by left|by left]. }
      match goal with |- context [process_new_file env p ?w1] =>
        pose proof (process_new_file_effect p w1) as (Hh & Hw);
        destruct (process_new_file env p w1) as [[[]|e] w2] end; simpl in *.
      * split; [done|]. split; [intros ?; apply Hh; healthy_tac|].
        exists (delete_many p (docs w)). split; [by right|done].
      * split; [done|]. split; [intros ?; apply Hh; healthy_tac|].
        exists (delete_many p (docs w)). split; [by right|done].
    + split; [done|]. split; [healthy_tac|].
      exists (docs w). split; [by left|by left].
  - pose proof (process_new_file_effect p (tick w)) as (Hh & Hw).
    destruct (process_new_file env p (tick w)) as [[[]|e] w2]; simpl in *.
    + split; [done|]. split; [intros ?; apply Hh; healthy_tac|].
      exists (docs w). split; [by left|done].
    + split; [done|]. split; [intros ?; apply Hh; healthy_tac|].
      exists (docs w). split; [by left|done].
Qed.

(** No pipeline step raises, and each keeps the store well formed. *)
Lemma process_file_ok p force w : fst (process_file env p force w) = Ok tt.
Proof. apply process_file_effect. Qed.

Lemma process_file_healthy p force w :
  healthy w -> healthy (snd (process_file env p force w)).
Proof. apply process_file_effect. Qed.

Lemma process_file_wf p force w :
  wf_store (docs w) -> wf_store (docs (snd (process_file env p force w))).
Proof.
  intros Hwf.
  destruct (process_file_effect p force w) as (_ & _ & c1 & Hc1 & Hw).
  eapply written_wf; [exact Hw|].
  destruct Hc1 as [->| ->]; [done|].
  eapply wf_store_sublist; [apply delete_many_sublist|done].
Qed.

End PipelineFacts.

(** ** Records stored under a path *)

Section PathFacts.
Import Collection.

Lemma find_none_count p c :
  find_one (path_is p) c = None -> count_by_path p c = 0%nat.
Proof.
  unfold find_one, count_by_path.
  induction c as [|d c IH]; simpl; [done|].
  destruct (path_is p d); [done|]. exact IH.
Qed.

Lemma find_none_delete_many p c :
  find_one (path_is p) c = None -> delete_many p c = c.
Proof.
  unfold find_one, delete_many.
  induction c as [|d c IH]; simpl; [done|].
  destruct (path_is p d); simpl; [done|].
  intros H. by rewrite IH.
Qed.

Lemma delete_many_find p c : find_one (path_is p) (delete_many p c) = None.
Proof.
  unfold find_one, delete_many.
  induction c as [|d c IH]; simpl; [done|].
  destruct (path_is p d) eqn:E; simpl; [done|]. by rewrite E.
Qed.

Lemma replace_one_find_none p i r c :
  find_one (path_is p) c = None -> path_is p r = false ->
  find_one (path_is p) (replace_one i r c) = None.
Proof.
  unfold find_one. intros Hc Hr.
  induction c as [|d c IH]; simpl in *.
  - by rewrite Hr.
  - destruct (path_is p d) eqn:E; [done|].
    destruct (id_is i d); simpl.
    + by rewrite Hr.
    + rewrite E. by apply IH.
Qed.

Lemma replace_one_count p i r c :
  find_one (path_is p) c = None -> path_is p r = true ->
  count_by_path p (replace_one i r c) = 1%nat.
Proof.
  unfold find_one, count_by_path. intros Hc Hr.
  induction c as [|d c IH]; simpl in *.
  - by rewrite Hr.
  - destruct (path_is p d) eqn:E; [done|].
    destruct (id_is i d); simpl.
    + rewrite Hr. simpl. f_equal. by apply find_none_count.
    + rewrite E. by apply IH.
Qed.

End PathFacts.

(** ** Re-ingestion without force *)

(** C1.  Whenever [get_id_by_path p] returns an id, [process_file p] without
    force-update returns normally, logs that it skips and leaves the
    collection as it was.  Hence, starting from a store with no record under
    [p], once a first un-forced ingestion has left a record that
    [get_id_by_path p] finds, a second one changes nothing and the store
    holds exactly one record under [p]. *)
Theorem process_file_idempotent (env : Env) (p : string) :
  (forall w i,
      fst (get_id_by_path p w) = Ok (Some i) ->
      let r := process_file env p false w in
      fst r = Ok tt /\
      docs (snd r) = docs w /\
      log (snd r) = log w ++ [(INFO, "Document already exists, skipping: " +:+ i)]) /\
  (forall w i,
      Collection.find_one (Collection.path_is p) (docs w) = None ->
      let w1 := snd (process_file env p false w) in
      fst (get_id_by_path p w1) = Ok (Some i) ->
      let r2 := process_file env p false w1 in
      fst r2 = Ok tt /\
      docs (snd r2) = docs w1 /\
      count_by_path p (docs (snd r2)) = 1%nat).
Proof.
  assert (Hskip : forall w i,
      fst (get_id_by_path p w) = Ok (Some i) ->
      let r := process_file env p false w in
      fst r = Ok tt /\
      docs (snd r) = docs w /\
      log (snd r) = log w ++ [(INFO, "Document already exists, skipping: " +:+ i)]).
  { intros w i Hget. unfold process_file, try_except, bind.
    rewrite get_id_by_path_run in *.
    destruct (next_fault w); simpl in *; [discriminate|].
    destruct (Collection.find_one _ _) as [r0|]; simpl in *; [|discriminate].
    by injection Hget as ->. }
  split; [exact Hskip|].
  intros w i Hnone w1 Hget r2.
  destruct (Hskip w1 i Hget) as (Hok & Hdocs & _).
  split; [exact Hok|]. split; [exact Hdocs|].
  unfold r2. rewrite Hdocs.
  rewrite get_id_by_path_run in Hget.
  destruct (next_fault w1); simpl in Hget; [discriminate|].
  destruct (Collection.find_one _ (docs w1)) as [r1|] eqn:Hfind; [|discriminate].
  destruct (process_file_effect env p false w) as (_ & _ & c1 & Hc1 & Hw).
  fold w1 in Hw.
  assert (c1 = docs w) as ->.
  { destruct Hc1 as [->| ->]; [done|]. by apply find_none_delete_many. }
  destruct Hw as [Hw|(d & _ & Hw)].
  - rewrite Hw in Hfind. congruence.
  - rewrite Hw in *.
    destruct (Collection.path_is p (model_dump d)) eqn:E.
    + by apply replace_one_count.
    + rewrite replace_one_find_none in Hfind by done. discriminate.
Qed.

Lemma process_file_idempotent_witness :
  (let r := process_file sample_env "/data/inbox/a.txt" false world_a in
   fst r = Ok tt /\
   docs (snd r) = docs world_a /\
   log (snd r) =
     log world_a ++
       [(INFO, "Document already exists, skipping: " +:+ "md5-text of /data/inbox/a.txt")]) /\
  (let w1 := snd (process_file sample_env "/data/inbox/a.txt" false empty_world) in
   let r2 := process_file sample_env "/data/inbox/a.txt" false w1 in
   fst r2 = Ok tt /\
   docs (snd r2) = docs w1 /\
   count_by_path "/data/inbox/a.txt" (docs (snd r2)) = 1%nat).
Proof.
  destruct (process_file_idempotent sample_env "/data/inbox/a.txt") as [H1 H2].
  split.
  - apply (H1 world_a "md5-text of /data/inbox/a.txt"). vm_compute. reflexivity.
  - apply (H2 empty_world "md5-text of /data/inbox/a.txt"); vm_compute; reflexivity.
Defined.

(** ** Enrichment failure *)

Section EnrichmentFailure.
Import Collection.
Local Arguments String.append : simpl never.

Lemma registry_get_mem reg suffix ps :
  registry_get reg suffix = Some ps -> registry_mem reg suffix = true.
Proof. unfold registry_mem. by intros ->. Qed.

(** On a supported file whose enrichment raises, the creation flow raises
    that exception after two log lines, the collection untouched. *)
Lemma process_new_file_enrichment_raises env p w ps text meta e :
  registry_get (registry env) (Py.lower (Path.suffix p)) = Some ps ->
  extract env ps p = Ok (text, meta) ->
  chain_ainvoke env (Py.take 8000 text) = Raise e ->
  let r := process_new_file env p w in
  fst r = Raise e /\ docs (snd r) = docs w /\ faults (snd r) = faults w.
Proof.
  intros Hreg Hex Hch. unfold process_new_file.
  rewrite (registry_get_mem _ _ _ Hreg). simpl.
  unfold bind, logger_info, logger, parse_file. simpl.
  rewrite Hreg. simpl.
  unfold parse, bind, ret, logger_info, logger. simpl.
  rewrite Hex. simpl.
  unfold extract_document_info. simpl. rewrite Hch. done.
Qed.

Lemma healthy_no_fault w : healthy w -> forall msg, next_fault w <> Some msg.
Proof. intros H msg. by rewrite healthy_next. Qed.

End EnrichmentFailure.

(** C2.  If the enrichment call raises on the text parsed from a file, then
    [process_file] on that file returns normally and writes nothing: the
    collection is the one it started from, or that one with the records of
    the path removed by a forced update; no record is added or replaced.
    When the store is reachable and the call is not a skip (forced, or no
    record under the path), no record under the path is left and the last
    log entry is the error. *)
Theorem enrichment_failure_persists_nothing
    (env : Env) (p : string) (force : bool) (w : World)
    (ps : Parser) (text : string) (meta : DocumentMetadata.t) (e : exn) :
  registry_get (registry env) (Py.lower (Path.suffix p)) = Some ps ->
  extract env ps p = Ok (text, meta) ->
  chain_ainvoke env (Py.take 8000 text) = Raise e ->
  let r := process_file env p force w in
  fst r = Ok tt /\
  (docs (snd r) = docs w \/ docs (snd r) = Collection.delete_many p (docs w)) /\
  (forall x, x ∈ docs (snd r) -> x ∈ docs w) /\
  (healthy w ->
   force = true \/ Collection.find_one (Collection.path_is p) (docs w) = None ->
   Collection.find_one (Collection.path_is p) (docs (snd r)) = None /\
   last (log (snd r)) =
     Some (ERROR, "Error processing file " +:+ p +:+ ": " +:+ exn_str e)).
Proof.
  intros Hreg Hex Hch r.
  assert (Hmain :
    fst r = Ok tt /\
    (docs (snd r) = docs w \/ docs (snd r) = Collection.delete_many p (docs w)) /\
    (healthy w ->
     force = true \/ Collection.find_one (Collection.path_is p) (docs w) = None ->
     Collection.find_one (Collection.path_is p) (docs (snd r)) = None /\
     last (log (snd r)) =
       Some (ERROR, "Error processing file " +:+ p +:+ ": " +:+ exn_str e))).
  { unfold r, process_file, try_except, bind.
    rewrite get_id_by_path_run.
    destruct (next_fault w) eqn:Hf; simpl.
    { split; [done|]. split; [by left|].
      intros Hh. by apply healthy_no_fault with (msg := s) in Hh. }
    destruct (Collection.find_one (Collection.path_is p) (docs w)) as [r0|] eqn:Hfind; simpl.
    - destruct force; simpl.
      + rewrite delete_by_path_run. simpl.
        match goal with |- context [next_fault ?w1] =>
          destruct (next_fault w1) eqn:Hf2 end; simpl.
        { split; [done|]. split; [by left|].
          intros Hh. exfalso. revert Hf2. unfold next_fault. simpl.
          unfold healthy in Hh. by rewrite Hh. }
        match goal with |- context [process_new_file env p ?w1] =>
          destruct (process_new_file_enrichment_raises env p w1 ps text meta e
                      Hreg Hex Hch) as (Hr & Hd & _);
          destruct (process_new_file env p w1) as [o w2] end; simpl in *.
        subst o. simpl. split; [done|]. split; [right; by rewrite Hd|].
        intros _ _. rewrite Hd. split; [apply delete_many_find|apply last_snoc].
      + split; [done|]. split; [by left|].
        intros _ [?|?]; discriminate.
    - destruct (process_new_file_enrichment_raises env p (tick w) ps text meta e
                  Hreg Hex Hch) as (Hr & Hd & _).
      destruct (process_new_file env p (tick w)) as [o w2]; simpl in *.
      subst o. simpl. split; [done|]. split; [left; by rewrite Hd|].
      intros _ _. rewrite Hd. split; [done|apply last_snoc]. }
  destruct Hmain as (H1 & H2 & H3).
  split; [done|]. split; [done|]. split; [|done].
  intros x Hx. destruct H2 as [H2|H2]; rewrite H2 in Hx; [done|].
  eapply elem_of_sublist; [exact Hx|apply delete_many_sublist].
Qed.

Lemma enrichment_failure_persists_nothing_witness :
  let r := process_file sample_env "/data/inbox/down.txt" true world_a in
  fst r = Ok tt /\
  docs (snd r) = docs world_a /\
  Collection.find_one (Collection.path_is "/data/inbox/down.txt") (docs (snd r)) = None /\
  last (log (snd r)) =
    Some (ERROR, "Error processing file /data/inbox/down.txt: llm unavailable").
Proof.
  destruct (enrichment_failure_persists_nothing sample_env "/data/inbox/down.txt" true
              world_a TextParser "text of /data/inbox/down.txt" sample_meta
              (EnrichmentError "llm unavailable"))
    as (H1 & _ & _ & H4); [reflexivity..|].
  destruct H4 as [H4 H5]; [reflexivity|by left|].
  split; [exact H1|]. split; [reflexivity|]. split; [exact H4|exact H5].
Defined.

(** ** Unsupported extensions *)

Section Unsupported.
Import Collection.
Local Arguments String.append : simpl never.

Lemma process_file_unsupported env p w :
  registry_mem (registry env) (Py.lower (Path.suffix p)) = false ->
  let r := process_file env p false w in
  fst r = Ok tt /\
  docs (snd r) = docs w /\
  (next_fault w = None ->
   find_one (path_is p) (docs w) = None ->
   log (snd r) =
     log w ++ [(INFO, "Skipping unsupported file: " +:+ p +:+ " (supported: "
                      +:+ Py.join ", " (map fst (registry env)) +:+ ")")]).
Proof.
  intros Hreg. unfold process_file, try_except, bind.
  rewrite get_id_by_path_run.
  destruct (next_fault w); simpl; [done|].
  destruct (find_one (path_is p) (docs w)); simpl; [done|].
  unfold process_new_file. rewrite Hreg. simpl. done.
Qed.

End Unsupported.

(** C8.  For a file whose lower-cased suffix is not a key of the registry,
    [process_file] without force-update, and the [on_created] handler of a
    file event that calls it, return normally and leave the collection
    unchanged, whatever the store holds and whatever the driver does.  With
    a reachable store and no record under the path, all that happens is one
    INFO log line. *)
Theorem unsupported_extension_inert (env : Env) (p : string) (w : World) :
  registry_mem (registry env) (Py.lower (Path.suffix p)) = false ->
  (let r := process_file env p false w in
   fst r = Ok tt /\ docs (snd r) = docs w) /\
  (forall dest,
      let r := on_created env (mkEvent p dest false) w in
      fst r = Ok (Some tt) /\ docs (snd r) = docs w) /\
  (next_fault w = None ->
   Collection.find_one (Collection.path_is p) (docs w) = None ->
   log (snd (process_file env p false w)) =
     log w ++ [(INFO, "Skipping unsupported file: " +:+ p +:+ " (supported: "
                      +:+ Py.join ", " (map fst (registry env)) +:+ ")")]).
Proof.
  intros Hreg.
  destruct (process_file_unsupported env p w Hreg) as (H1 & H2 & H3).
  split; [by split|]. split; [|exact H3].
  intros dest.
  unfold on_created, _run_coroutine, try_except, bind, logger_info, logger, ret. simpl.
  match goal with |- context [process_file env p false ?w1] =>
    destruct (process_file_unsupported env p w1 Hreg) as (H1' & H2' & _);
    destruct (process_file env p false w1) as [o w2] end.
  simpl in *. subst o. simpl. by split.
Qed.

Lemma unsupported_extension_inert_witness :
  (let r := process_file sample_env "/data/inbox/c.bin" false world_a in
   fst r = Ok tt /\ docs (snd r) = docs world_a) /\
  (let r := on_created sample_env (mkEvent "/data/inbox/c.bin" EmptyString false) world_a in
   fst r = Ok (Some tt) /\ docs (snd r) = docs world_a) /\
  log (snd (process_file sample_env "/data/inbox/c.bin" false world_a)) =
    log world_a ++
      [(INFO, "Skipping unsupported file: /data/inbox/c.bin (supported: .docx, .doc, .pdf, .txt, .csv, .md, .json)")].
Proof.
  destruct (unsupported_extension_inert sample_env "/data/inbox/c.bin" world_a)
    as (H1 & H2 & H3); [reflexivity|].
  split; [exact H1|]. split; [exact (H2 EmptyString)|].
  rewrite H3; reflexivity.
Defined.

(** ** Forced update of an existing record *)

Section ForceUpdate.
Import Collection.
Local Arguments String.append : simpl never.

Lemma process_new_file_fails env p w :
  ingestion_fails env p -> docs (snd (process_new_file env p w)) = docs w.
Proof.
  intros [Hreg|[(ps & e & Hreg & Hex)|(ps & text & meta & e & Hreg & Hex & Hch)]].
  - unfold process_new_file. by rewrite Hreg.
  - unfold process_new_file. rewrite (registry_get_mem _ _ _ Hreg). simpl.
    unfold bind, logger_info, logger, parse_file. simpl. rewrite Hreg. simpl.
    unfold parse, bind, raise, logger_info, logger. simpl. by rewrite Hex.
  - by destruct (process_new_file_enrichment_raises env p w ps text meta e
                   Hreg Hex Hch) as (_ & Hd & _).
Qed.

End ForceUpdate.

(** C5.  On a reachable store that holds a record under [p], a forced
    [process_file p] deletes every record under [p] before it looks at the
    registry, parses or enriches.  So when the suffix is unsupported, or the
    parser or the enrichment raises, the call still returns normally and the
    collection is the old one without the records of [p]: the record that
    was there is gone and nothing replaces it. *)
Theorem force_update_is_not_atomic (env : Env) (p : string) (w : World) (r0 : RawDoc) :
  healthy w ->
  Collection.find_one (Collection.path_is p) (docs w) = Some r0 ->
  ingestion_fails env p ->
  let r := process_file env p true w in
  fst r = Ok tt /\
  docs (snd r) = Collection.delete_many p (docs w) /\
  Collection.find_one (Collection.path_is p) (docs (snd r)) = None /\
  (r0 ∉ docs (snd r)) /\
  exists l, log (snd r) =
              log w ++ (INFO, "Force updating existing document: " +:+ raw_id r0) :: l.
Proof.
  intros Hh Hfind Hfail r.
  assert (Hr0 : Collection.path_is p r0 = true).
  { apply find_some in Hfind. apply Hfind. }
  assert (Hmain :
    fst r = Ok tt /\
    docs (snd r) = Collection.delete_many p (docs w) /\
    exists l, log (snd r) =
                log w ++ (INFO, "Force updating existing document: " +:+ raw_id r0) :: l).
  { unfold r, process_file, try_except, bind.
    rewrite get_id_by_path_run, (healthy_next w Hh). simpl.
    rewrite Hfind. simpl.
    rewrite delete_by_path_run. simpl.
    match goal with |- context [next_fault ?w1] =>
      replace (next_fault w1) with (@None string) end.
    2:{ unfold next_fault. simpl. unfold healthy in Hh. by rewrite Hh. }
    simpl.
    match goal with |- context [process_new_file env p ?w1] =>
      pose proof (process_new_file_fails env p w1 Hfail) as Hd;
      pose proof (process_new_file_log env p w1) as [l1 Hl];
      destruct (process_new_file env p w1) as [[[]|e] w2] end; simpl in *.
    - split; [done|]. split; [done|]. exists l1. rewrite Hl.
      by rewrite <- app_assoc.
    - split; [done|]. split; [done|].
      exists (l1 ++ [(ERROR, "Error processing file " +:+ p +:+ ": " +:+ exn_str e)]).
      rewrite Hl. by rewrite <- !app_assoc. }
  destruct Hmain as (H1 & H2 & H3).
  split; [done|]. split; [done|]. split; [rewrite H2; apply delete_many_find|].
  split; [|done].
  rewrite H2. unfold Collection.delete_many. intros Hin.
  apply list_elem_of_In, filter_In in Hin as [_ Hin].
  by rewrite Hr0 in Hin.
Qed.

Lemma force_update_is_not_atomic_witness :
  let r := process_file sample_env_down "/data/inbox/a.txt" true world_a in
  fst r = Ok tt /\
  docs (snd r) = [] /\
  Collection.find_one (Collection.path_is "/data/inbox/a.txt") (docs (snd r)) = None.
Proof.
  destruct (force_update_is_not_atomic sample_env_down "/data/inbox/a.txt" world_a
              (model_dump
                 (ParsedDocument.mk "md5-text of /data/inbox/a.txt" "a.txt"
                    "/data/inbox/a.txt" "text of /data/inbox/a.txt"
                    (DocumentMetadata.with_filename "a.txt" sample_meta)
                    ["k"] ["t"] (Some "summary of text of /data/inbox/a.txt"))))
    as (H1 & H2 & H3 & _).
  - reflexivity.
  - reflexivity.
  - right. right.
    exists TextParser, "text of /data/inbox/a.txt", sample_meta,
           (EnrichmentError "llm unavailable").
    repeat split; reflexivity.
  - split; [exact H1|]. split; [rewrite H2; reflexivity|exact H3].
Defined.

(** ** Store failures inside a pipeline step *)

Section StoreFailure.
Local Arguments String.append : simpl never.

(** A body run under [try ... except Exception: logger.error(...)] never
    raises. *)
Lemma try_except_logged (m : M unit) (f : exn -> string) (w : World) :
  fst (try_except m (fun e => logger_error (f e)) w) = Ok tt.
Proof.
  unfold try_except. by destruct (m w) as [[[]|e] w'].
Qed.



Lemma process_directory_ok env d w : fst (process_directory env d w) = Ok tt.
Proof. apply try_except_logged. Qed.


End StoreFailure.




(** ** Moves *)

Section Moves.
Import Collection.
Local Arguments String.append : simpl never.

Lemma replace_one_find i r c :
  raw_id r = i -> find_one (id_is i) (replace_one i r c) = Some r.
Proof.
  intros Hr. assert (Hi : id_is i r = true) by by apply id_is_true.
  unfold find_one. induction c as [|d c IH]; simpl.
  - by rewrite Hi.
  - destruct (id_is i d) eqn:E; simpl.
    + by rewrite Hi.
    + by rewrite E.
Qed.

Lemma replace_one_other i r c x :
  x ∈ c -> raw_id x <> i -> x ∈ replace_one i r c.
Proof.
  intros Hx Hne. induction c as [|d c IH]; simpl; [inversion Hx|].
  apply elem_of_cons in Hx as [->|Hx].
  - apply id_is_false in Hne. rewrite Hne. by left.
  - destruct (id_is i d); right; [done|by apply IH].
Qed.

Lemma find_one_id_elem i c r :
  find_one (id_is i) c = Some r -> r ∈ c /\ raw_id r = i.
Proof.
  intros H. apply find_some in H as [Hin Hid].
  split; [by apply list_elem_of_In|by apply id_is_true].
Qed.

Lemma moved_id src dest d : ParsedDocument.id (moved src dest d) = ParsedDocument.id d.
Proof. unfold moved. by destruct (negb _). Qed.

End Moves.




(** ** Per-length summaries *)

Section Summaries.
Import Collection.

Lemma update_one_lookup i len s c k r0 :
  NoDup (map raw_id c) ->
  c !! k = Some r0 ->
  update_one i len s c !! k =
    Some (if id_is i r0 then set_summaries_entry len s r0 else r0).
Proof.
  revert k. induction c as [|d c IH]; intros k Hnd Hk; [done|].
  simpl in Hnd. apply NoDup_cons in Hnd as [Hd Hnd]. simpl.
  destruct (id_is i d) eqn:E.
  - destruct k as [|k]; simpl in *.
    + injection Hk as <-. by rewrite E.
    + rewrite Hk. f_equal.
      destruct (id_is i r0) eqn:E0; [|done].
      exfalso. apply Hd. apply id_is_true in E, E0. rewrite E, <- E0.
      apply list_elem_of_fmap. exists r0. split; [done|].
      by eapply list_elem_of_lookup_2.
  - destruct k as [|k]; simpl in *.
    + injection Hk as <-. by rewrite E.
    + by apply IH.
Qed.

Lemma update_one_absent i len s c :
  i ∉ map raw_id c -> update_one i len s c = c.
Proof.
  induction c as [|d c IH]; simpl; [done|].
  intros Hin. apply not_elem_of_cons in Hin as [Hne Hin].
  destruct (id_is i d) eqn:E.
  - apply id_is_true in E. congruence.
  - f_equal. by apply IH.
Qed.

End Summaries.

(** C10.  With the store reachable and ids unique, [set_summary i len s]
    returns normally and touches nothing but the entry [len] of the
    [summaries] of the document whose id is [i]: every document stays at its
    place with the same model fields and sort key, every other entry of its
    [summaries] is as before, the targeted document has [summaries[len] = s],
    and a document with another id is unchanged.  When no document has id
    [i] the collection is unchanged and nothing is raised. *)
Theorem set_summary_frame (i : string) (len : Z) (s : string) (w : World) :
  next_fault w = None ->
  wf_store (docs w) ->
  let r := set_summary i len s w in
  fst r = Ok tt /\
  length (docs (snd r)) = length (docs w) /\
  (forall k r0,
      docs w !! k = Some r0 ->
      exists r1,
        docs (snd r) !! k = Some r1 /\
        raw_doc r1 = raw_doc r0 /\
        uploaded_at r1 = uploaded_at r0 /\
        (forall l, l <> len -> summaries r1 !! l = summaries r0 !! l) /\
        (raw_id r0 = i -> summaries r1 !! len = Some s) /\
        (raw_id r0 <> i -> r1 = r0)) /\
  (i ∉ map raw_id (docs w) -> docs (snd r) = docs w).
Proof.
  intros Hf [Hnd _] r. unfold r. rewrite set_summary_run, Hf. simpl.
  split; [done|]. split.
  { rewrite <- (length_map raw_id), update_one_ids. apply length_map. }
  split; [|by apply update_one_absent].
  intros k r0 Hk. eexists. split; [by apply update_one_lookup|].
  destruct (Collection.id_is i r0) eqn:E; simpl.
  - apply id_is_true in E.
    split; [done|]. split; [done|]. split.
    + intros l Hl. by apply lookup_insert_ne.
    + split; [intros _; apply lookup_insert_eq|congruence].
  - apply id_is_false in E. repeat split; congruence.
Qed.

Lemma set_summary_frame_witness :
  (let r := set_summary "md5-text of /data/inbox/a.txt" 150 "short" world_a in
   fst r = Ok tt /\
   docs (snd r) = [mkRaw doc_a {[ 150%Z := "short" ]} None]) /\
  (let r := set_summary "no-such-id" 150 "short" world_a in
   fst r = Ok tt /\ docs (snd r) = docs world_a).
Proof.
  split.
  - destruct (set_summary_frame "md5-text of /data/inbox/a.txt" 150 "short" world_a)
      as (H1 & _ & _ & _).
    + reflexivity.
    + split; vm_compute; [apply NoDup_singleton|repeat constructor; discriminate].
    + split; [exact H1|reflexivity].
  - destruct (set_summary_frame "no-such-id" 150 "short" world_a)
      as (H1 & _ & _ & H4).
    + reflexivity.
    + split; vm_compute; [apply NoDup_singleton|repeat constructor; discriminate].
    + split; [exact H1|]. apply H4. vm_compute.
      intros H. apply list_elem_of_singleton in H. discriminate.
Defined.

(** ** Listing and querying *)

Section Listing.
Import Collection.

Lemma sort_desc_undated c : undated c -> sort_desc c = c.
Proof.
  induction 1 as [|x c Hx Hc IH]; simpl; [done|].
  rewrite IH. destruct c as [|y c]; simpl; [done|].
  apply Forall_cons in Hc as [Hy _]. by rewrite Hx, Hy.
Qed.

(** What the repository writes never carries the sort key. *)
Lemma written_undated c c' : written c c' -> undated c -> undated c'.
Proof.
  intros [->|(d & _ & ->)] Hc; [done|].
  apply Forall_forall. intros x Hx.
  destruct (replace_one_elem _ _ _ _ Hx) as [->|Hx']; [done|].
  by eapply Forall_forall in Hc.
Qed.

Lemma process_file_undated env p force w :
  undated (docs w) -> undated (docs (snd (process_file env p force w))).
Proof.
  intros Hc.
  destruct (process_file_effect env p force w) as (_ & _ & c1 & Hc1 & Hw).
  eapply written_undated; [exact Hw|].
  destruct Hc1 as [->| ->]; [done|].
  apply Forall_forall. intros x Hx.
  eapply Forall_forall in Hc; [exact Hc|].
  eapply elem_of_sublist; [exact Hx|apply delete_many_sublist].
Qed.

(** [list_meta] yields each stored document once, its text blanked. *)
Lemma list_meta_yields_all w :
  next_fault w = None ->
  exists l, fst (list_meta w) = Ok l /\ l ≡ₚ map of_raw_meta (docs w) /\
            Forall (fun d => ParsedDocument.text d = EmptyString) l.
Proof.
  intros Hf. rewrite list_meta_run, Hf. simpl. eexists. split; [done|].
  split.
  - apply Permutation_map, sort_desc_perm.
  - apply Forall_forall. intros d Hd.
    apply list_elem_of_fmap in Hd as (r & -> & _). done.
Qed.

(** On an undated collection the order is the natural one: oldest first. *)
Lemma list_meta_undated w :
  next_fault w = None -> undated (docs w) ->
  fst (list_meta w) = Ok (map of_raw_meta (docs w)).
Proof.
  intros Hf Hu. rewrite list_meta_run, Hf. simpl. by rewrite sort_desc_undated.
Qed.

(** With truthy filters [query] streams, text blanked, the documents whose
    topics hold the topic or whose keywords hold the keyword. *)
Lemma query_truthy topic keyword w :
  next_fault w = None ->
  (topic <> None \/ keyword <> None) ->
  (forall t, topic = Some t -> t <> EmptyString) ->
  (forall k, keyword = Some k -> k <> EmptyString) ->
  fst (query topic keyword w) =
    Ok (map of_raw_meta
          (List.filter
             (fun r => match topic with
                       | Some t => mem t (ParsedDocument.topics (raw_doc r))
                       | None => false
                       end
                       || match keyword with
                          | Some k => mem k (ParsedDocument.keywords (raw_doc r))
                          | None => false
                          end)
             (docs w))).
Proof.
  intros Hf Hgiven Ht Hk.
  unfold query, _ensure_connection, bind, ret, raise, motor_await, get_docs.
  destruct topic as [t|], keyword as [k|]; simpl; rewrite ?Hf; simpl.
  - rewrite (proj2 (truthy_true t)), (proj2 (truthy_true k)) by auto. simpl.
    do 2 f_equal; try (apply filter_ext; intros r; simpl; by rewrite ?orb_false_r).
  - rewrite (proj2 (truthy_true t)) by auto. simpl.
    do 2 f_equal; try (apply filter_ext; intros r; simpl; by rewrite ?orb_false_r).
  - rewrite (proj2 (truthy_true k)) by auto. simpl.
    do 2 f_equal; try (apply filter_ext; intros r; simpl; by rewrite ?orb_false_r).
  - by destruct Hgiven.
Qed.

End Listing.

(** C6 at the failing input.  A topic that is given but empty passes the
    guard against two missing filters, adds no clause, and the server
    refuses the empty [$or]: the iteration raises although a filter was
    given.  Given together with a keyword it is dropped, so a record whose
    topics hold the empty string is not streamed. *)
Theorem query_empty_filter_raises :
  fst (query None None world_a)
    = Raise (ValueError "At least one of topic or keyword must be provided") /\
  fst (query (Some EmptyString) None world_a)
    = Raise (OperationFailure "$or/$and/$nor entries need to be non-empty array") /\
  fst (query None (Some EmptyString) world_a)
    = Raise (OperationFailure "$or/$and/$nor entries need to be non-empty array") /\
  fst (query (Some "t") None world_a) = Ok [of_raw_meta (model_dump doc_a)] /\
  (let r0 := model_dump (ParsedDocument.with_topics [EmptyString] doc_a) in
   Collection.matches (Collection.Topics EmptyString) r0 = true /\
   fst (query (Some EmptyString) (Some "z") (with_docs [r0] empty_world)) = Ok []).
Proof. repeat split; reflexivity. Qed.

(** C7 at the failing input.  [upsert] stores the model's fields only, so no
    document has the [uploaded_at] field that [list_meta] sorts on: after
    [a.txt] then [sub/b.md] are ingested, the listing yields both, text
    blanked, with the older upload first. *)
Theorem list_meta_not_newest_first :
  docs world_ab = [model_dump doc_a; model_dump doc_b] /\
  Forall (fun r => uploaded_at r = None) (docs world_ab) /\
  fst (list_meta world_ab) = Ok [ParsedDocument.with_text EmptyString doc_a;
                                 ParsedDocument.with_text EmptyString doc_b].
Proof.
  split; [reflexivity|]. split; [|reflexivity].
  vm_compute. repeat constructor.
Qed.

(** ** Directory scan and reconciliation sweep *)

Section Sweep.
Import Collection.
Local Arguments String.append : simpl never.

Lemma swept_orphan d observed r :
  d <> EmptyString -> swept d observed (of_raw_meta r) = orphan d observed r.
Proof.
  intros Hd. unfold swept, orphan, raw_path. simpl.
  destruct (ParsedDocument.path (raw_doc r)) as [|a s] eqn:E; simpl; [|done].
  unfold Py.startswith. destruct d; [done|]. done.
Qed.

Lemma filter_bool_filter (f g : RawDoc -> bool) c :
  List.filter f (List.filter g c) = List.filter (fun x => g x && f x) c.
Proof.
  induction c as [|x c IH]; simpl; [done|].
  destruct (g x); simpl; [|done].
  destruct (f x); by rewrite IH.
Qed.

Lemma delete_one_NoDup i c : NoDup (map raw_id c) -> NoDup (map raw_id (delete_one i c)).
Proof.
  intros H. eapply sublist_NoDup; [exact H|].
  apply (fmap_sublist raw_id), delete_one_sublist.
Qed.

(** Deleting a list of ids one by one keeps exactly the records whose id is
    not listed. *)
Lemma foldl_delete_one ids c :
  NoDup (map raw_id c) ->
  foldl (fun c i => delete_one i c) c ids =
    List.filter (fun r => negb (mem (raw_id r) ids)) c.
Proof.
  revert c. induction ids as [|i ids IH]; intros c Hnd; simpl.
  - symmetry. apply forallb_filter_id. by apply forallb_forall.
  - rewrite IH by by apply delete_one_NoDup.
    rewrite delete_one_filter by done.
    rewrite filter_bool_filter. apply filter_ext. intros r.
    unfold id_is. by rewrite negb_orb.
Qed.

Lemma NoDup_raw_id_inj c x y :
  NoDup (map raw_id c) -> x ∈ c -> y ∈ c -> raw_id x = raw_id y -> x = y.
Proof.
  induction c as [|z c IH]; simpl; intros Hnd Hx Hy Heq; [inversion Hx|].
  apply NoDup_cons in Hnd as [Hz Hnd].
  apply elem_of_cons in Hx as [->|Hx]; apply elem_of_cons in Hy as [->|Hy].
  - done.
  - exfalso. apply Hz. rewrite Heq. apply list_elem_of_fmap. eauto.
  - exfalso. apply Hz. rewrite <- Heq. apply list_elem_of_fmap. eauto.
  - by apply IH.
Qed.

(** With unique ids, the ids the sweep deletes are those of the orphans. *)
Lemma mem_swept_ids d observed c r :
  d <> EmptyString -> NoDup (map raw_id c) -> r ∈ c ->
  mem (raw_id r)
      (map ParsedDocument.id
           (List.filter (swept d observed) (map of_raw_meta (sort_desc c))))
  = orphan d observed r.
Proof.
  intros Hd Hnd Hr.
  destruct (orphan d observed r) eqn:Ho.
  - apply existsb_exists. exists (raw_id r). split; [|apply String.eqb_refl].
    apply in_map_iff. exists (of_raw_meta r). split; [done|].
    apply filter_In. split; [|by rewrite swept_orphan].
    apply in_map, list_elem_of_In. by rewrite sort_desc_perm.
  - apply not_true_is_false. intros H.
    apply existsb_exists in H as (i & Hi & Heq). apply String.eqb_eq in Heq. subst i.
    apply in_map_iff in Hi as (doc & Hid & Hdoc).
    apply filter_In in Hdoc as [Hdoc Hsw].
    apply in_map_iff in Hdoc as (r' & <- & Hr').
    apply list_elem_of_In in Hr'. rewrite sort_desc_perm in Hr'.
    rewrite swept_orphan in Hsw by done.
    assert (r' = r) as -> by (by eapply NoDup_raw_id_inj).
    congruence.
Qed.

(** The loop of the sweep on a reachable store. *)
Lemma cleanup_loop_run d observed cursor n w :
  healthy w ->
  let r := cleanup_loop d observed cursor n w in
  (exists n', fst r = Ok n') /\
  healthy (snd r) /\
  docs (snd r) =
    foldl (fun c i => delete_one i c) (docs w)
          (map ParsedDocument.id (List.filter (swept d observed) cursor)).
Proof.
  revert n w. induction cursor as [|doc cursor IH]; intros n w Hh; simpl.
  - split; [by eexists|]. by split.
  - unfold swept at 1. simpl.
    destruct (Py.truthy (ParsedDocument.path doc)
              && Py.startswith (ParsedDocument.path doc) d) eqn:E1; simpl.
    2:{ by apply IH. }
    destruct (bool_decide (ParsedDocument.path doc ∈ observed)) eqn:E2; simpl.
    { by apply IH. }
    unfold bind, logger_info, logger. simpl.
    rewrite delete_run. no_fault Hh. simpl.
    match goal with |- context [cleanup_loop d observed cursor ?n1 ?w1] =>
      destruct (IH n1 w1) as (H1 & H2 & H3) end.
    { healthy_tac. }
    split; [done|]. split; [done|]. by rewrite H3.
Qed.

(** The walk records every file and leaves a reachable, well-formed store
    so. *)
Lemma walk_loop_run env files acc w :
  let r := walk_loop env files acc w in
  fst r = Ok (acc ∪ list_to_set files) /\
  (healthy w -> healthy (snd r)) /\
  (wf_store (docs w) -> wf_store (docs (snd r))).
Proof.
  revert acc w. induction files as [|f files IH]; intros acc w; simpl.
  - split; [|done]. unfold ret. simpl. f_equal. by rewrite (right_id_L ∅ (∪)).
  - unfold bind.
    pose proof (process_file_ok env f false w) as Hok.
    pose proof (process_file_healthy env f false w) as Hh.
    pose proof (process_file_wf env f false w) as Hwf.
    destruct (process_file env f false w) as [o w1]. simpl in *. subst o.
    destruct (IH (acc ∪ {[f]}) w1) as (H1 & H2 & H3).
    split; [|split; auto].
    rewrite H1. f_equal. by rewrite (assoc_L (∪)).
Qed.

End Sweep.

Section SweepRun.
Import Collection.
Local Arguments String.append : simpl never.

(** [process_directory] once the walk is known to end in [w1] with the set
    [observed]. *)
Lemma process_directory_run env d w observed w1 :
  d <> EmptyString ->
  walk_loop env (os_walk env d) ∅
    (with_log (log w ++ [(INFO, "Processing directory: " +:+ d)]) w)
    = (Ok observed, w1) ->
  healthy w1 ->
  wf_store (docs w1) ->
  docs (snd (process_directory env d w)) =
    List.filter (fun x => negb (orphan d observed x)) (docs w1).
Proof.
  intros Hd Hwalk Hsh Hswf.
  unfold process_directory, try_except, bind, logger_info, logger. simpl.
  rewrite Hwalk. simpl.
  unfold _cleanup_deleted_files_in_directory, try_except, bind, logger_info, logger.
  simpl. rewrite list_meta_run. no_fault Hsh. simpl.
  match goal with |- context [cleanup_loop d observed ?cur ?n ?w2] =>
    destruct (cleanup_loop_run d observed cur n w2) as ((n' & Hn) & _ & Hdocs);
    [healthy_tac|];
    destruct (cleanup_loop d observed cur n w2) as [o w3] end.
  simpl in *. subst o.
  assert (Hfinal : docs w3 =
            List.filter (fun x => negb (orphan d observed x)) (docs w1)).
  { rewrite Hdocs. rewrite foldl_delete_one by apply Hswf.
    apply filter_ext_in. intros x Hx. f_equal.
    apply mem_swept_ids; [done|apply Hswf|by apply list_elem_of_In]. }
  by destruct (0 <? n')%Z.
Qed.

End SweepRun.

(** C3.  On a reachable store with unique ids, scanning a root [d] first
    processes every file found under [d], recording the set [observed] of
    their paths, and then sweeps: of the records the store holds once the
    files are processed, exactly those whose path starts with [d] and is
    not in [observed] are deleted; every other record, in particular every
    record whose path was observed, is kept as it is, in the same order. *)
Theorem reconciliation_sweep (env : Env) (d : string) (w : World) :
  healthy w ->
  wf_store (docs w) ->
  d <> EmptyString ->
  let scan := walk_loop env (os_walk env d) ∅
                (snd (logger_info ("Processing directory: " +:+ d) w)) in
  let observed : gset string := list_to_set (os_walk env d) in
  let r := process_directory env d w in
  fst scan = Ok observed /\
  fst r = Ok tt /\
  docs (snd r) = List.filter (fun x => negb (orphan d observed x)) (docs (snd scan)) /\
  (forall x, x ∈ docs (snd r) <->
             x ∈ docs (snd scan) /\
             ~ (Py.startswith (raw_path x) d = true /\ raw_path x ∉ observed)) /\
  (forall x, x ∈ docs (snd scan) -> raw_path x ∈ observed -> x ∈ docs (snd r)).
Proof.
  intros Hh Hwf Hd scan observed r.
  destruct (walk_loop_run env (os_walk env d) ∅
              (snd (logger_info ("Processing directory: " +:+ d) w)))
    as (Hscan & Hsh & Hswf).
  fold scan in Hscan, Hsh, Hswf.
  assert (Hobs : fst scan = Ok observed).
  { rewrite Hscan. f_equal. unfold observed. by rewrite (left_id_L ∅ (∪)). }
  specialize (Hsh Hh). specialize (Hswf Hwf).
  assert (Hmain : fst r = Ok tt /\
    docs (snd r) = List.filter (fun x => negb (orphan d observed x)) (docs (snd scan))).
  { split; [apply process_directory_ok|].
    destruct scan as [o w1] eqn:Hwalk. simpl in *. subst o.
    injection Hobs as Hobs. rewrite Hobs in Hwalk.
    by apply (process_directory_run env d w observed w1). }
  destruct Hmain as [H1 H2].
  split; [done|]. split; [done|]. split; [done|].
  assert (Hiff : forall x, x ∈ docs (snd r) <->
             x ∈ docs (snd scan) /\
             ~ (Py.startswith (raw_path x) d = true /\ raw_path x ∉ observed)).
  { intros x. rewrite H2, list_elem_of_In, filter_In, <- list_elem_of_In.
    unfold orphan. rewrite negb_true_iff, andb_false_iff, negb_false_iff,
      bool_decide_eq_true.
    split; intros [Hx Ho]; (split; [done|]).
    - intros [Hp Hn]. destruct Ho; [congruence|done].
    - destruct (Py.startswith (raw_path x) d); [|by left].
      right. destruct (decide (raw_path x ∈ observed)); [done|].
      exfalso. by apply Ho. }
  split; [exact Hiff|].
  intros x Hx Ho. apply Hiff. split; [done|]. by intros [_ Hn].
Qed.

Lemma reconciliation_sweep_witness :
  let r := process_directory sample_env "/data/inbox" world_stale in
  fst r = Ok tt /\
  docs (snd r) = [model_dump doc_a; model_dump doc_b].
Proof.
  destruct (reconciliation_sweep sample_env "/data/inbox" world_stale)
    as (_ & H1 & H2 & _).
  - reflexivity.
  - split; vm_compute.
    + apply NoDup_cons. split; [|apply NoDup_singleton].
      intros H. apply list_elem_of_singleton in H. discriminate.
    + repeat constructor; discriminate.
  - discriminate.
  - split; [exact H1|]. rewrite H2. vm_compute. reflexivity.
Defined.

(** * Further properties of the repository *)

Section RepoRoundTrips.
Import Collection.
Local Arguments String.append : simpl never.


Lemma replace_one_idem i r c :
  raw_id r = i -> replace_one i r (replace_one i r c) = replace_one i r c.
Proof.
  intros Hr. assert (Hi : id_is i r = true) by by apply id_is_true.
  induction c as [|d c IH]; simpl.
  - by rewrite Hi.
  - destruct (id_is i d) eqn:E; simpl.
    + by rewrite Hi.
    + by rewrite E, IH.
Qed.

Lemma replace_one_length i r c :
  length (replace_one i r c) =
    match find_one (id_is i) c with Some _ => length c | None => S (length c) end.
Proof.
  unfold find_one. induction c as [|d c IH]; simpl; [done|].
  destruct (id_is i d); simpl; [done|].
  rewrite IH. by destruct (find _ _).
Qed.

Lemma count_documents_find i c :
  count_documents i c = match find_one (id_is i) c with Some _ => 1%Z | None => 0%Z end.
Proof.
  unfold count_documents, find_one.
  induction c as [|d c IH]; simpl; [done|].
  destruct (id_is i d); simpl; [done|exact IH].
Qed.

Lemma exists_run i w :
  exists_ i w =
    match next_fault w with
    | Some msg => (Raise (StoreError msg), tick w)
    | None => (Ok (match find_one (id_is i) (docs w) with
                   | Some _ => true | None => false end), tick w)
    end.
Proof.
  unfold exists_, _ensure_connection, bind, ret, motor_await, get_docs.
  destruct (next_fault w); simpl; [done|].
  rewrite count_documents_find. by destruct (find_one _ _).
Qed.

Lemma find_one_filter_ne i j c :
  find_one (id_is j) (List.filter (fun r => negb (id_is i r)) c) =
    if String.eqb j i then None else find_one (id_is j) c.
Proof.
  unfold find_one. induction c as [|d c IH]; simpl.
  - by destruct (String.eqb j i).
  - destruct (id_is i d) eqn:E; simpl.
    + rewrite IH. destruct (String.eqb j i) eqn:Eji; [done|].
      apply id_is_true in E. apply String.eqb_neq in Eji.
      assert (id_is j d = false) as -> by (apply id_is_false; congruence). done.
    + destruct (id_is j d) eqn:Ej; [|exact IH].
      destruct (String.eqb j i) eqn:Eji; [|done].
      apply String.eqb_eq in Eji. subst j. congruence.
Qed.

Lemma delete_one_absent i c : i ∉ map raw_id c -> delete_one i c = c.
Proof.
  induction c as [|d c IH]; simpl; [done|].
  intros Hin. apply not_elem_of_cons in Hin as [Hne Hin].
  destruct (id_is i d) eqn:E.
  - apply id_is_true in E. congruence.
  - f_equal. by apply IH.
Qed.

Lemma find_one_ids i c :
  find_one (id_is i) c = None <-> i ∉ map raw_id c.
Proof.
  unfold find_one. induction c as [|d c IH]; simpl.
  - split; [intros _ H; inversion H|done].
  - destruct (id_is i d) eqn:E.
    + apply id_is_true in E. split; [done|]. intros H. exfalso. apply H.
      rewrite E. by left.
    + apply id_is_false in E. rewrite IH, not_elem_of_cons.
      split; [intros H; split; [congruence|done]|by intros [_ H]].
Qed.






End RepoRoundTrips.






(** X3.  [upsert] is idempotent: on a reachable store, writing the same
    document a second time leaves the collection as the first write left
    it. *)
Theorem upsert_idempotent (doc : ParsedDocument.t) (w : World) :
  healthy w ->
  ParsedDocument.id doc <> EmptyString ->
  docs (snd (upsert doc (snd (upsert doc w)))) = docs (snd (upsert doc w)).
Proof.
  intros Hh Hid.
  rewrite !upsert_run by by apply truthy_true.
  no_fault Hh. rewrite (healthy_next w Hh). simpl.
  by apply replace_one_idem.
Qed.

Lemma upsert_idempotent_witness :
  docs (snd (upsert doc_b (snd (upsert doc_b world_a))))
    = [model_dump doc_a; model_dump doc_b].
Proof.
  rewrite (upsert_idempotent doc_b world_a); [reflexivity|reflexivity|discriminate].
Defined.

(** X4.  On a reachable, well-formed store [upsert] touches only the
    record of its id: the collection grows by one exactly when the id was
    not stored, its records are the written one together with the old
    records of other ids, and it stays well formed. *)
Theorem upsert_frame (doc : ParsedDocument.t) (w : World) :
  healthy w ->
  wf_store (docs w) ->
  ParsedDocument.id doc <> EmptyString ->
  let c' := docs (snd (upsert doc w)) in
  length c' =
    match Collection.find_one (Collection.id_is (ParsedDocument.id doc)) (docs w) with
    | Some _ => length (docs w)
    | None => S (length (docs w))
    end /\
  (forall x, x ∈ c' <->
             x = model_dump doc \/
             (x ∈ docs w /\ raw_id x <> ParsedDocument.id doc)) /\
  wf_store c'.
Proof.
  intros Hh Hwf Hid c'. unfold c'.
  rewrite upsert_run by by apply truthy_true.
  rewrite (healthy_next w Hh). simpl.
  split; [apply replace_one_length|].
  assert (Hwf' : wf_store (Collection.replace_one (ParsedDocument.id doc)
                             (model_dump doc) (docs w))).
  { by apply (replace_one_wf (model_dump doc)). }
  split; [|exact Hwf'].
  intros x. split.
  - intros Hx. destruct (replace_one_elem _ _ _ _ Hx) as [?|Hin]; [by left|].
    destruct (decide (raw_id x = ParsedDocument.id doc)) as [Hxid|Hne];
      [left|by right].
    eapply NoDup_raw_id_inj; [apply Hwf'|exact Hx| |exact Hxid].
    apply list_elem_of_In. eapply find_some. by apply replace_one_find.
  - intros [->|[Hx Hne]].
    + apply list_elem_of_In. eapply find_some. by apply replace_one_find.
    + by apply replace_one_other.
Qed.

Lemma upsert_frame_witness :
  let c' := docs (snd (upsert doc_b world_a)) in
  length c' = 2%nat /\ wf_store c'.
Proof.
  destruct (upsert_frame doc_b world_a) as (H1 & _ & H3).
  - reflexivity.
  - split; vm_compute; [apply NoDup_singleton|repeat constructor; discriminate].
  - discriminate.
  - split; [exact H1|exact H3].
Defined.

(** X5.  On a reachable, well-formed store [delete i] removes the record
    of id [i] and nothing else: afterwards [get i] answers [None] and
    [exists i] false, [get] of any other id answers as before, and when no
    record has id [i] the collection is unchanged and nothing is raised. *)
Theorem delete_removes_record (i : string) (w : World) :
  healthy w ->
  wf_store (docs w) ->
  let r := delete i w in
  fst r = Ok tt /\
  docs (snd r) = List.filter (fun x => negb (Collection.id_is i x)) (docs w) /\
  fst (get i (snd r)) = Ok None /\
  fst (exists_ i (snd r)) = Ok false /\
  (forall j, j <> i -> fst (get j (snd r)) = fst (get j w)) /\
  (i ∉ map raw_id (docs w) -> docs (snd r) = docs w) /\
  wf_store (docs (snd r)).
Proof.
  intros Hh Hwf r. unfold r. rewrite delete_run, (healthy_next w Hh). simpl.
  split; [done|]. split; [apply delete_one_filter, Hwf|].
  rewrite get_run, exists_run. no_fault Hh. simpl.
  rewrite (delete_one_filter i (docs w)) by apply Hwf.
  rewrite find_one_filter_ne, String.eqb_refl. simpl.
  split; [done|]. split; [done|]. split.
  { intros j Hj. rewrite !get_run, (healthy_next w Hh). no_fault Hh. simpl.
    rewrite find_one_filter_ne.
    by rewrite (proj2 (String.eqb_neq j i) Hj). }
  split.
  { intros Hi. rewrite <- (delete_one_filter i (docs w)) by apply Hwf.
    by apply delete_one_absent. }
  rewrite <- (delete_one_filter i (docs w)) by apply Hwf.
  eapply wf_store_sublist; [apply delete_one_sublist|done].
Qed.

Lemma delete_removes_record_witness :
  let r := delete (ParsedDocument.id doc_a) world_ab in
  fst r = Ok tt /\
  docs (snd r) = [model_dump doc_b] /\
  fst (get (ParsedDocument.id doc_a) (snd r)) = Ok None /\
  fst (get (ParsedDocument.id doc_b) (snd r)) = Ok (Some doc_b).
Proof.
  destruct (delete_removes_record (ParsedDocument.id doc_a) world_ab)
    as (H1 & H2 & H3 & _ & H5 & _).
  - reflexivity.
  - split; vm_compute.
    + apply NoDup_cons. split; [|apply NoDup_singleton].
      intros H. apply list_elem_of_singleton in H. discriminate.
    + repeat constructor; discriminate.
  - split; [exact H1|]. split; [rewrite H2; reflexivity|]. split; [exact H3|].
    rewrite H5; [reflexivity|discriminate].
Defined.

(** X6.  On a reachable store [exists i] answers true exactly when [get i]
    returns a document, the document [get i] returns has id [i], and
    neither call changes the collection. *)
Theorem exists_agrees_with_get (i : string) (w : World) :
  next_fault w = None ->
  (fst (exists_ i w) = Ok true <-> exists d, fst (get i w) = Ok (Some d)) /\
  (fst (exists_ i w) = Ok false <-> fst (get i w) = Ok None) /\
  (forall d, fst (get i w) = Ok (Some d) -> ParsedDocument.id d = i) /\
  docs (snd (get i w)) = docs w /\
  docs (snd (exists_ i w)) = docs w.
Proof.
  intros Hf. rewrite get_run, exists_run, Hf. simpl.
  destruct (Collection.find_one (Collection.id_is i) (docs w)) as [r0|] eqn:E; simpl.
  - apply find_one_id_elem in E as [_ Hid].
    split; [split; eauto|]. split; [split; discriminate|].
    split; [|done]. intros d [= <-]. exact Hid.
  - split; [split; [discriminate|intros [d ?]; discriminate]|].
    split; [done|]. split; [discriminate|done].
Qed.

Lemma exists_agrees_with_get_witness :
  fst (exists_ (ParsedDocument.id doc_a) world_a) = Ok true /\
  fst (exists_ "no-such-id" world_a) = Ok false.
Proof.
  split.
  - apply (exists_agrees_with_get (ParsedDocument.id doc_a) world_a); [reflexivity|].
    exists doc_a. reflexivity.
  - apply (exists_agrees_with_get "no-such-id" world_a); reflexivity.
Defined.

Section PathCount.
Import Collection.

Lemma count_zero_find p c :
  count_by_path p c = 0%nat -> find_one (path_is p) c = None.
Proof.
  unfold count_by_path, find_one.
  induction c as [|d c IH]; simpl; [done|].
  destruct (path_is p d); simpl; [discriminate|exact IH].
Qed.

Lemma count_by_path_split p c :
  (count_by_path p c + length (delete_many p c) = length c)%nat.
Proof.
  unfold count_by_path, delete_many. apply filter_length.
Qed.

End PathCount.

(** X7.  On a reachable store [delete_by_path p] returns the number of
    records it removes, which is the number of records stored under [p];
    what is left is exactly the records of other paths, in order, and
    [get_id_by_path p] then finds nothing. *)
Theorem delete_by_path_counts (p : string) (w : World) :
  healthy w ->
  let r := delete_by_path p w in
  fst r = Ok (Z.of_nat (count_by_path p (docs w))) /\
  (count_by_path p (docs w) + length (docs (snd r)) = length (docs w))%nat /\
  (forall x, x ∈ docs (snd r) <-> x ∈ docs w /\ raw_path x <> p) /\
  count_by_path p (docs (snd r)) = 0%nat /\
  fst (get_id_by_path p (snd r)) = Ok None.
Proof.
  intros Hh r. unfold r. rewrite delete_by_path_run, (healthy_next w Hh). simpl.
  split; [done|]. split; [apply count_by_path_split|].
  split.
  { intros x. unfold Collection.delete_many.
    rewrite list_elem_of_In, filter_In, <- list_elem_of_In, negb_true_iff.
    by rewrite path_is_false. }
  split; [apply find_none_count, delete_many_find|].
  rewrite get_id_by_path_run. no_fault Hh. simpl.
  by rewrite delete_many_find.
Qed.

Lemma delete_by_path_counts_witness :
  let r := delete_by_path "/data/inbox/a.txt" world_ab in
  fst r = Ok 1%Z /\
  length (docs (snd r)) = 1%nat /\
  fst (get_id_by_path "/data/inbox/a.txt" (snd r)) = Ok None.
Proof.
  destruct (delete_by_path_counts "/data/inbox/a.txt" world_ab)
    as (H1 & _ & _ & _ & H5); [reflexivity|].
  split; [exact H1|]. split; [reflexivity|exact H5].
Defined.

(** X8.  On a reachable store the id [get_id_by_path p] returns belongs to
    a stored record whose path is [p], it answers [None] exactly when no
    record is stored under [p], and it does not change the collection. *)
Theorem get_id_by_path_sound (p : string) (w : World) :
  next_fault w = None ->
  (forall i, fst (get_id_by_path p w) = Ok (Some i) ->
             exists r, r ∈ docs w /\ raw_path r = p /\ raw_id r = i) /\
  (fst (get_id_by_path p w) = Ok None <-> count_by_path p (docs w) = 0%nat) /\
  (count_by_path p (docs w) <> 0%nat -> exists i, fst (get_id_by_path p w) = Ok (Some i)) /\
  docs (snd (get_id_by_path p w)) = docs w.
Proof.
  intros Hf. rewrite get_id_by_path_run, Hf. simpl.
  destruct (Collection.find_one (Collection.path_is p) (docs w)) as [r0|] eqn:E; simpl.
  - pose proof E as E'. apply find_some in E' as [Hin Hp].
    apply path_is_true in Hp. apply list_elem_of_In in Hin.
    split; [intros i [= <-]; eauto|].
    split; [|split; [eauto|done]].
    split; [discriminate|]. intros H0. apply count_zero_find in H0. congruence.
  - split; [discriminate|]. split; [split; [intros _; by apply find_none_count|done]|].
    split; [|done]. intros H. exfalso. apply H. by apply find_none_count.
Qed.

Lemma get_id_by_path_sound_witness :
  (exists r, r ∈ docs world_ab /\ raw_path r = "/data/inbox/sub/b.md" /\
             raw_id r = ParsedDocument.id doc_b) /\
  fst (get_id_by_path "/data/inbox/gone.txt" world_ab) = Ok None.
Proof.
  split.
  - apply (get_id_by_path_sound "/data/inbox/sub/b.md" world_ab); reflexivity.
  - apply (get_id_by_path_sound "/data/inbox/gone.txt" world_ab); reflexivity.
Defined.

(** * Further properties of listing and querying *)

Section ReadFacts.
Import Collection.

Lemma mem_true x l : mem x l = true <-> x ∈ l.
Proof.
  unfold mem. rewrite existsb_exists. split.
  - intros (y & Hy & Heq). apply String.eqb_eq in Heq. subst y.
    by apply list_elem_of_In.
  - intros Hx. exists x. split; [by apply list_elem_of_In|apply String.eqb_refl].
Qed.

Lemma query_docs topic keyword w : docs (snd (query topic keyword w)) = docs w.
Proof.
  unfold query, _ensure_connection, bind, ret, raise, motor_await, get_docs.
  destruct topic as [t|], keyword as [k|]; simpl; try done;
    destruct (next_fault w); simpl; try done;
    match goal with |- context [find_or ?cs ?c] => by destruct (find_or cs c) end.
Qed.

Lemma same_model_refl c : same_model c c.
Proof. induction c; constructor; auto. Qed.

Lemma update_one_same_model i len s c : same_model (update_one i len s c) c.
Proof.
  induction c as [|d c IH]; simpl; [constructor|].
  destruct (id_is i d).
  - constructor; [done|apply same_model_refl].
  - constructor; [done|exact IH].
Qed.

Lemma same_model_find j c c' :
  same_model c c' ->
  of_raw <$> find_one (id_is j) c = of_raw <$> find_one (id_is j) c'.
Proof.
  unfold find_one. induction 1 as [|x y c c' [Hd _] _ IH]; simpl; [done|].
  unfold id_is, raw_id, of_raw in *. rewrite Hd.
  destruct (String.eqb _ j); simpl; [by rewrite Hd|exact IH].
Qed.

Lemma same_model_insert x y c c' :
  raw_doc x = raw_doc y /\ uploaded_at x = uploaded_at y ->
  same_model c c' -> same_model (insert_desc x c) (insert_desc y c').
Proof.
  intros [Hd Hk]. induction 1 as [|a b c c' [Hd' Hk'] Hc IH]; simpl.
  - constructor; [done|constructor].
  - rewrite Hk, Hk'.
    destruct (key_lt _ _); repeat (constructor; auto).
Qed.

Lemma same_model_sort c c' :
  same_model c c' -> same_model (sort_desc c) (sort_desc c').
Proof.
  induction 1 as [|x y c c' Hxy _ IH]; simpl; [constructor|].
  by apply same_model_insert.
Qed.

Lemma same_model_meta c c' :
  same_model c c' -> map of_raw_meta c = map of_raw_meta c'.
Proof.
  induction 1 as [|x y c c' [Hd _] _ IH]; simpl; [done|].
  rewrite IH. unfold of_raw_meta. by rewrite Hd.
Qed.

Lemma same_model_filter cs c c' :
  same_model c c' ->
  same_model (List.filter (fun d => existsb (fun q => matches q d) cs) c)
             (List.filter (fun d => existsb (fun q => matches q d) cs) c').
Proof.
  induction 1 as [|x y c c' [Hd Hk] _ IH]; simpl; [constructor|].
  assert (existsb (fun q => matches q x) cs = existsb (fun q => matches q y) cs) as ->.
  { clear IH. induction cs as [|q cs IHcs]; simpl; [done|].
    rewrite IHcs. unfold matches. by rewrite Hd. }
  destruct (existsb _ cs); [constructor; auto|exact IH].
Qed.

End ReadFacts.

(** X9.  On a reachable store, [query] with at least one filter given and
    every given filter non-empty raises nothing, leaves the collection
    alone and streams, text blanked, exactly the records whose topics hold
    the topic or whose keywords hold the keyword.  With neither filter it
    raises [ValueError] before any driver call. *)
Theorem query_or_semantics (topic keyword : option string) (w : World) :
  next_fault w = None ->
  (topic <> None \/ keyword <> None) ->
  (forall t, topic = Some t -> t <> EmptyString) ->
  (forall k, keyword = Some k -> k <> EmptyString) ->
  (exists l,
      fst (query topic keyword w) = Ok l /\
      (forall d, d ∈ l <->
                 exists r, r ∈ docs w /\ d = of_raw_meta r /\
                           ((exists t, topic = Some t /\ t ∈ ParsedDocument.topics (raw_doc r)) \/
                            (exists k, keyword = Some k /\ k ∈ ParsedDocument.keywords (raw_doc r)))) /\
      Forall (fun d => ParsedDocument.text d = EmptyString) l) /\
  docs (snd (query topic keyword w)) = docs w /\
  query None None w =
    (Raise (ValueError "At least one of topic or keyword must be provided"), w).
Proof.
  intros Hf Hgiven Ht Hk.
  split; [|split; [apply query_docs|done]].
  rewrite query_truthy by done. eexists. split; [done|]. split.
  - intros d. rewrite list_elem_of_fmap. split.
    + intros (r & -> & Hr). apply list_elem_of_In, filter_In in Hr as [Hr Hm].
      exists r. split; [by apply list_elem_of_In|]. split; [done|].
      apply orb_true_iff in Hm as [Hm|Hm].
      * left. destruct topic as [t|]; [|discriminate]. exists t.
        split; [done|]. by apply mem_true.
      * right. destruct keyword as [k|]; [|discriminate]. exists k.
        split; [done|]. by apply mem_true.
    + intros (r & Hr & -> & Hm). exists r. split; [done|].
      apply list_elem_of_In, filter_In. split; [by apply list_elem_of_In|].
      apply orb_true_iff.
      destruct Hm as [(t & -> & Hm)|(k & -> & Hm)]; [left|right]; by apply mem_true.
  - apply Forall_forall. intros d Hd.
    apply list_elem_of_fmap in Hd as (r & -> & _). done.
Qed.

Lemma query_or_semantics_witness :
  fst (query (Some "t") None world_ab)
    = Ok [of_raw_meta (model_dump doc_a); of_raw_meta (model_dump doc_b)] /\
  docs (snd (query (Some "t") None world_ab)) = docs world_ab.
Proof.
  destruct (query_or_semantics (Some "t") None world_ab) as (_ & H2 & _).
  - reflexivity.
  - left. discriminate.
  - intros t [= <-]. discriminate.
  - discriminate.
  - split; [reflexivity|exact H2].
Defined.

(** X10.  On a reachable store [list_meta] yields each stored record
    exactly once, as its model fields with the text replaced by the empty
    string, and leaves the collection alone; on a collection whose records
    carry no [uploaded_at] (all that [upsert] ever writes) the order is the
    stored order. *)
Theorem list_meta_lists_every_record (w : World) :
  next_fault w = None ->
  exists l,
    fst (list_meta w) = Ok l /\
    l ≡ₚ map of_raw_meta (docs w) /\
    length l = length (docs w) /\
    Forall (fun d => ParsedDocument.text d = EmptyString) l /\
    docs (snd (list_meta w)) = docs w /\
    (undated (docs w) -> l = map of_raw_meta (docs w)).
Proof.
  intros Hf. rewrite list_meta_run, Hf. simpl. eexists. split; [done|].
  split; [apply Permutation_map, sort_desc_perm|].
  split.
  { rewrite length_map. apply Permutation_length, sort_desc_perm. }
  split.
  { apply Forall_forall. intros d Hd.
    apply list_elem_of_fmap in Hd as (r & -> & _). done. }
  split; [done|]. intros Hu. by rewrite sort_desc_undated.
Qed.

Lemma list_meta_lists_every_record_witness :
  exists l, fst (list_meta world_ab) = Ok l /\ length l = 2%nat.
Proof.
  destruct (list_meta_lists_every_record world_ab) as (l & H1 & _ & H3 & _);
    [reflexivity|].
  exists l. split; [exact H1|exact H3].
Defined.

(** X11.  A per-length summary is write-only through the repository: on a
    reachable store, after [set_summary] every [get], [list_meta] and
    [query] returns what it returned before, because the model the readers
    build ignores the [summaries] field. *)
Theorem set_summary_is_unobservable
    (i : string) (len : Z) (s : string) (w : World) :
  healthy w ->
  let w' := snd (set_summary i len s w) in
  (forall j, fst (get j w') = fst (get j w)) /\
  (forall j, fst (exists_ j w') = fst (exists_ j w)) /\
  fst (list_meta w') = fst (list_meta w) /\
  (forall topic keyword, fst (query topic keyword w') = fst (query topic keyword w)).
Proof.
  intros Hh w'. unfold w'. rewrite set_summary_run, (healthy_next w Hh). simpl.
  pose proof (update_one_same_model i len s (docs w)) as Hsm.
  split.
  { intros j. rewrite !get_run, (healthy_next w Hh). no_fault Hh. simpl.
    by rewrite (same_model_find j _ _ Hsm). }
  split.
  { intros j. rewrite !exists_run, (healthy_next w Hh). no_fault Hh. simpl.
    pose proof (same_model_find j _ _ Hsm) as Hfind.
    destruct (Collection.find_one _ (Collection.update_one _ _ _ _)),
             (Collection.find_one _ (docs w)); simpl in Hfind; congruence. }
  split.
  { rewrite !list_meta_run, (healthy_next w Hh). no_fault Hh. simpl.
    by rewrite (same_model_meta _ _ (same_model_sort _ _ Hsm)). }
  intros topic keyword.
  unfold query, _ensure_connection, bind, ret, raise, motor_await, get_docs.
  destruct topic as [t|], keyword as [k|]; simpl; try done;
    rewrite (healthy_next w Hh); no_fault Hh; simpl;
    match goal with |- context [Collection.find_or ?cs (docs w)] =>
      destruct cs as [|q cs']; simpl; [done|];
      apply (f_equal Ok); apply same_model_meta;
      exact (same_model_filter (q :: cs') _ _ Hsm)
    end.
Qed.

Lemma set_summary_is_unobservable_witness :
  let w' := snd (set_summary (ParsedDocument.id doc_a) 150 "short" world_ab) in
  summaries <$> docs w' = [{[ 150%Z := "short" ]}; ∅] /\
  fst (get (ParsedDocument.id doc_a) w') = Ok (Some doc_a) /\
  fst (list_meta w') = fst (list_meta world_ab).
Proof.
  destruct (set_summary_is_unobservable (ParsedDocument.id doc_a) 150 "short" world_ab)
    as (H1 & _ & H3 & _); [reflexivity|].
  split; [reflexivity|]. split; [rewrite H1; reflexivity|exact H3].
Defined.

(** * Further properties of the pipeline *)

Section Ingestion.
Import Collection.
Local Arguments String.append : simpl never.
Local Arguments fresh_hex : simpl never.

Variable env : Env.

(** The creation flow on an ingestible file is an [upsert] of the merged
    record, after two log lines. *)
Lemma process_new_file_ingests p w text meta info :
  healthy w ->
  ingestible env p text meta info ->
  md5_hexdigest env text <> EmptyString ->
  let d := enriched info (parsed env p text meta) in
  let r := process_new_file env p w in
  fst r = Ok tt /\
  docs (snd r) = replace_one (ParsedDocument.id d) (model_dump d) (docs w) /\
  healthy (snd r).
Proof.
  intros Hh (ps & Hreg & Hex & Hch) Hmd5 d r. unfold r, process_new_file.
  rewrite (registry_get_mem _ _ _ Hreg). simpl.
  unfold bind, logger_info, logger, parse_file. simpl.
  rewrite Hreg. simpl.
  unfold parse, bind, ret, logger_info, logger. simpl.
  rewrite Hex. simpl.
  unfold extract_document_info. simpl. rewrite Hch. simpl.
  fold (parsed env p text meta). fold (enriched info (parsed env p text meta)).
  fold d.
  rewrite upsert_run by (by apply truthy_true).
  no_fault Hh. simpl.
  split; [done|]. split; [done|]. healthy_tac.
Qed.

(** Without a record under [p], writing a record whose path is [p] makes it
    the one [find] returns. *)
Lemma replace_one_find_path p i r c :
  find_one (path_is p) c = None -> path_is p r = true ->
  find_one (path_is p) (replace_one i r c) = Some r.
Proof.
  unfold find_one. intros Hc Hr.
  induction c as [|d c IH]; simpl in *.
  - by rewrite Hr.
  - destruct (path_is p d) eqn:E; [done|].
    destruct (id_is i d); simpl.
    + by rewrite Hr.
    + rewrite E. by apply IH.
Qed.

(** How the number of records under a path changes when the record [r0] of
    id [i] is replaced by [r]. *)
Lemma replace_one_count_move q i r r0 c :
  NoDup (map raw_id c) -> r0 ∈ c -> raw_id r0 = i ->
  (count_by_path q (replace_one i r c) + (if path_is q r0 then 1 else 0) =
   count_by_path q c + (if path_is q r then 1 else 0))%nat.
Proof.
  unfold count_by_path.
  induction c as [|d c IH]; simpl; intros Hnd Hin Hid; [inversion Hin|].
  apply NoDup_cons in Hnd as [Hd Hnd].
  destruct (id_is i d) eqn:E; simpl.
  - apply id_is_true in E.
    assert (r0 = d) as ->.
    { apply elem_of_cons in Hin as [?|Hin]; [done|].
      exfalso. apply Hd. rewrite E, <- Hid. apply list_elem_of_fmap. eauto. }
    destruct (path_is q r), (path_is q d); simpl; lia.
  - apply id_is_false in E.
    apply elem_of_cons in Hin as [->|Hin]; [congruence|].
    specialize (IH Hnd Hin Hid).
    destruct (path_is q d); simpl; lia.
Qed.

(** What the creation flow does to the collection depends on the
    collection, the fault schedule and the entropy only. *)
Lemma process_new_file_docs_indep p w1 w2 :
  docs w1 = docs w2 -> faults w1 = faults w2 -> entropy w1 = entropy w2 ->
  docs (snd (process_new_file env p w1)) = docs (snd (process_new_file env p w2)).
Proof.
  destruct w1 as [c1 l1 f1 e1], w2 as [c2 l2 f2 e2]. simpl.
  intros -> -> ->. unfold process_new_file.
  destruct (registry_mem _ _); simpl; [|done].
  unfold bind, logger_info, logger, parse_file. simpl.
  destruct (registry_get _ _) as [ps|]; simpl; [|done].
  unfold parse, bind, raise, ret, logger_info, logger. simpl.
  destruct (extract env ps p) as [[text meta]|e]; simpl; [|done].
  unfold extract_document_info. simpl.
  destruct (chain_ainvoke env _) as [info|e]; simpl; [|done].
  unfold upsert, _ensure_connection, bind, ret, motor_await, get_docs, put_docs,
    uuid4_hex, next_fault, tick.
  destruct (Py.truthy _); simpl; destruct f2 as [|[msg|] fs]; reflexivity.
Qed.

(** An un-forced [process_file] only ever writes. *)
Lemma process_file_unforced_effect p w :
  written (docs w) (docs (snd (process_file env p false w))).
Proof.
  unfold process_file, try_except, bind.
  rewrite get_id_by_path_run.
  destruct (next_fault w); simpl; [by left|].
  destruct (find_one (path_is p) (docs w)); simpl; [by left|].
  pose proof (process_new_file_effect env p (tick w)) as (_ & Hw).
  by destruct (process_new_file env p (tick w)) as [[[]|e] w2].
Qed.

End Ingestion.

Section IngestionRun.
Import Collection.
Local Arguments String.append : simpl never.
Local Arguments fresh_hex : simpl never.

(** [process_file] on an ingestible file that is new or forced. *)
Lemma process_file_ingests env p force w text meta info :
  healthy w ->
  ingestible env p text meta info ->
  md5_hexdigest env text <> EmptyString ->
  force = true \/ find_one (path_is p) (docs w) = None ->
  let d := enriched info (parsed env p text meta) in
  let r := process_file env p force w in
  fst r = Ok tt /\
  healthy (snd r) /\
  exists c1,
    (c1 = docs w \/ c1 = delete_many p (docs w)) /\
    find_one (path_is p) c1 = None /\
    docs (snd r) = replace_one (ParsedDocument.id d) (model_dump d) c1.
Proof.
  intros Hh Hing Hmd5 Hgo d r. unfold r, process_file, try_except, bind.
  rewrite get_id_by_path_run, (healthy_next w Hh). simpl.
  destruct (find_one (path_is p) (docs w)) as [r0|] eqn:Hfind; simpl.
  - destruct Hgo as [->|?]; [|discriminate]. simpl.
    rewrite delete_by_path_run. no_fault Hh. simpl.
    match goal with |- context [process_new_file env p ?w1] =>
      destruct (process_new_file_ingests env p w1 text meta info) as (H1 & H2 & H3);
      [healthy_tac|done|done|];
      destruct (process_new_file env p w1) as [o w2] end.
    simpl in *. subst o. simpl.
    split; [done|]. split; [done|].
    exists (delete_many p (docs w)).
    split; [by right|]. split; [apply delete_many_find|done].
  - destruct (process_new_file_ingests env p (tick w) text meta info)
      as (H1 & H2 & H3); [healthy_tac|done|done|].
    destruct (process_new_file env p (tick w)) as [o w2].
    simpl in *. subst o. simpl.
    split; [done|]. split; [done|].
    exists (docs w). split; [by left|]. by split.
Qed.

End IngestionRun.

(** X12.  On a reachable store, [process_file] on a file that can be
    ingested, has a non-empty content hash and a canonical path, and is
    either new to the store or processed with force-update, returns
    normally and leaves exactly one record under the path: the parsed
    document with the keywords, topics and summary of the enrichment,
    stored under the content hash. *)
Theorem successful_ingestion_stores_merged_record
    (env : Env) (p : string) (force : bool) (w : World)
    (text : string) (meta : DocumentMetadata.t) (info : DocumentExtraction.t) :
  healthy w ->
  ingestible env p text meta info ->
  md5_hexdigest env text <> EmptyString ->
  absolute env p = p ->
  force = true \/ Collection.find_one (Collection.path_is p) (docs w) = None ->
  let r := process_file env p force w in
  let stored :=
    ParsedDocument.mk (md5_hexdigest env text) (Path.name p) p text
      (DocumentMetadata.with_filename (Path.name p) meta)
      (DocumentExtraction.keywords info) (DocumentExtraction.topics info)
      (Some (DocumentExtraction.summary info)) in
  fst r = Ok tt /\
  count_by_path p (docs (snd r)) = 1%nat /\
  fst (get_id_by_path p (snd r)) = Ok (Some (md5_hexdigest env text)) /\
  fst (get (md5_hexdigest env text) (snd r)) = Ok (Some stored).
Proof.
  intros Hh Hing Hmd5 Habs Hgo r stored.
  destruct (process_file_ingests env p force w text meta info Hh Hing Hmd5 Hgo)
    as (H1 & H2 & c1 & _ & Hnone & Hdocs).
  fold r in H1, H2, Hdocs.
  assert (Hst : enriched info (parsed env p text meta) = stored).
  { unfold stored, enriched, parsed. simpl. by rewrite Habs. }
  rewrite Hst in Hdocs. simpl in Hdocs.
  assert (Hp : Collection.path_is p (model_dump stored) = true).
  { apply path_is_true. done. }
  split; [done|]. split.
  { rewrite Hdocs. by apply replace_one_count. }
  rewrite get_id_by_path_run, get_run, (healthy_next _ H2). simpl.
  rewrite Hdocs. split.
  - by rewrite replace_one_find_path.
  - by rewrite replace_one_find.
Qed.

Lemma successful_ingestion_stores_merged_record_witness :
  let r := process_file sample_env "/data/inbox/a.txt" true world_a in
  fst r = Ok tt /\
  count_by_path "/data/inbox/a.txt" (docs (snd r)) = 1%nat /\
  fst (get (ParsedDocument.id doc_a) (snd r)) = Ok (Some doc_a).
Proof.
  destruct (successful_ingestion_stores_merged_record sample_env "/data/inbox/a.txt"
              true world_a "text of /data/inbox/a.txt" sample_meta
              (DocumentExtraction.mk ["k"] ["t"] "summary of text of /data/inbox/a.txt"))
    as (H1 & H2 & _ & H4).
  - reflexivity.
  - exists TextParser. repeat split; reflexivity.
  - discriminate.
  - reflexivity.
  - by left.
  - split; [exact H1|]. split; [exact H2|exact H4].
Defined.

(** X13.  On a reachable store a forced [process_file] leaves the
    collection that [delete_by_path] followed by an un-forced
    [process_file] leaves: force-update is delete-then-create. *)
Theorem force_update_is_delete_then_create (env : Env) (p : string) (w : World) :
  healthy w ->
  docs (snd (process_file env p true w)) =
  docs (snd (process_file env p false (snd (delete_by_path p w)))).
Proof.
  intros Hh.
  rewrite delete_by_path_run, (healthy_next w Hh). simpl.
  unfold process_file, try_except, bind.
  rewrite !get_id_by_path_run, (healthy_next w Hh). no_fault Hh. simpl.
  rewrite delete_many_find. simpl.
  destruct (Collection.find_one (Collection.path_is p) (docs w)) as [r0|] eqn:Hfind;
    simpl.
  - rewrite delete_by_path_run. no_fault Hh. simpl.
    match goal with
    | |- docs (snd (let (_, _) := process_new_file env p ?w1 in _)) =
         docs (snd (let (_, _) := process_new_file env p ?w2 in _)) =>
        pose proof (process_new_file_docs_indep env p w1 w2) as Hind;
        destruct (process_new_file env p w1) as [[[]|e1] w1'];
        destruct (process_new_file env p w2) as [[[]|e2] w2']
    end; simpl in *; apply Hind; try reflexivity;
      unfold healthy in Hh; by rewrite Hh.
  - match goal with
    | |- docs (snd (let (_, _) := process_new_file env p ?w1 in _)) =
         docs (snd (let (_, _) := process_new_file env p ?w2 in _)) =>
        pose proof (process_new_file_docs_indep env p w1 w2) as Hind;
        destruct (process_new_file env p w1) as [[[]|e1] w1'];
        destruct (process_new_file env p w2) as [[[]|e2] w2']
    end; simpl in *; apply Hind; try reflexivity;
      try (by rewrite find_none_delete_many);
      unfold healthy in Hh; by rewrite Hh.
Qed.

Lemma force_update_is_delete_then_create_witness :
  docs (snd (process_file sample_env "/data/inbox/a.txt" true world_ab)) =
  [model_dump doc_b; model_dump doc_a].
Proof.
  rewrite (force_update_is_delete_then_create sample_env "/data/inbox/a.txt" world_ab);
    reflexivity.
Defined.

Section EventFacts.
Import Collection.
Local Arguments String.append : simpl never.
Local Arguments fresh_hex : simpl never.

Lemma find_one_id_of_elem c r0 :
  NoDup (map raw_id c) -> r0 ∈ c -> find_one (id_is (raw_id r0)) c = Some r0.
Proof.
  unfold find_one. induction c as [|d c IH]; simpl; intros Hnd Hin; [inversion Hin|].
  apply NoDup_cons in Hnd as [Hd Hnd].
  destruct (id_is (raw_id r0) d) eqn:E.
  - apply id_is_true in E.
    apply elem_of_cons in Hin as [->|Hin]; [done|].
    exfalso. apply Hd. rewrite E. apply list_elem_of_fmap. eauto.
  - apply id_is_false in E.
    apply elem_of_cons in Hin as [->|Hin]; [done|]. by apply IH.
Qed.

Lemma find_one_path_elem p c r0 :
  find_one (path_is p) c = Some r0 -> r0 ∈ c /\ raw_path r0 = p.
Proof.
  intros H. apply find_some in H as [Hin Hp].
  split; [by apply list_elem_of_In|by apply path_is_true].
Qed.

(** How the number of records under a path changes when the record [r0] is
    deleted by id. *)
Lemma delete_one_count q r0 c :
  NoDup (map raw_id c) -> r0 ∈ c ->
  (count_by_path q (delete_one (raw_id r0) c) + (if path_is q r0 then 1 else 0) =
   count_by_path q c)%nat.
Proof.
  unfold count_by_path.
  induction c as [|d c IH]; simpl; intros Hnd Hin; [inversion Hin|].
  apply NoDup_cons in Hnd as [Hd Hnd].
  destruct (id_is (raw_id r0) d) eqn:E; simpl.
  - apply id_is_true in E.
    assert (r0 = d) as ->.
    { apply elem_of_cons in Hin as [?|Hin]; [done|].
      exfalso. apply Hd. rewrite E. apply list_elem_of_fmap. eauto. }
    destruct (path_is q d); simpl; lia.
  - apply id_is_false in E.
    apply elem_of_cons in Hin as [->|Hin]; [done|].
    specialize (IH Hnd Hin). destruct (path_is q d); simpl; lia.
Qed.

Lemma delete_one_app_fresh i r c :
  i ∉ map raw_id c -> raw_id r = i -> delete_one i (c ++ [r]) = c.
Proof.
  intros Hi Hr. induction c as [|d c IH]; simpl.
  - by rewrite (proj2 (id_is_true i r) Hr).
  - simpl in Hi. apply not_elem_of_cons in Hi as [Hne Hi].
    assert (id_is i d = false) as -> by (apply id_is_false; congruence).
    f_equal. by apply IH.
Qed.

(** The delete flow on a reachable store. *)
Lemma handle_deleted_file_run p w :
  healthy w ->
  let r := handle_deleted_file p w in
  fst r = Ok tt /\
  healthy (snd r) /\
  docs (snd r) =
    match find_one (path_is p) (docs w) with
    | Some r0 => if Py.truthy (raw_id r0) then delete_one (raw_id r0) (docs w)
                 else docs w
    | None => docs w
    end /\
  (find_one (path_is p) (docs w) = None ->
   last (log (snd r)) = Some (WARNING, "No document found for deleted file: " +:+ p)).
Proof.
  intros Hh r. unfold r, handle_deleted_file, try_except, bind, logger_info,
    logger_warning, logger. simpl.
  rewrite get_id_by_path_run. no_fault Hh. simpl.
  destruct (find_one (path_is p) (docs w)) as [r0|]; simpl.
  - destruct (Py.truthy (raw_id r0)); simpl.
    + rewrite delete_run. no_fault Hh. simpl.
      split; [done|]. split; [healthy_tac|]. split; [done|discriminate].
    + split; [done|]. split; [healthy_tac|]. split; [done|discriminate].
  - split; [done|]. split; [healthy_tac|]. split; [done|].
    intros _. apply last_snoc.
Qed.

(** The move flow on a reachable, well-formed store that holds a record
    under the source path. *)
Lemma handle_moved_file_run env src dest w r0 :
  healthy w ->
  wf_store (docs w) ->
  find_one (path_is src) (docs w) = Some r0 ->
  let r := handle_moved_file env src dest w in
  fst r = Ok tt /\
  docs (snd r) =
    replace_one (raw_id r0) (model_dump (moved src dest (raw_doc r0))) (docs w).
Proof.
  intros Hh [Hnd Hne] Hfind r.
  destruct (find_one_path_elem _ _ _ Hfind) as [Hin _].
  assert (Hid : raw_id r0 <> EmptyString) by (eapply Forall_forall in Hne; eauto).
  unfold r, handle_moved_file, try_except, bind, logger_info, logger. simpl.
  rewrite get_id_by_path_run. no_fault Hh. simpl.
  rewrite Hfind. simpl.
  rewrite (proj2 (truthy_true _) Hid).
  rewrite get_run. no_fault Hh. simpl.
  rewrite find_one_id_of_elem by done. simpl.
  fold (moved src dest (of_raw r0)). unfold of_raw.
  rewrite upsert_run.
  2:{ apply truthy_true. by rewrite moved_id. }
  no_fault Hh. simpl. rewrite moved_id. done.
Qed.

End EventFacts.

(** X14.  Identity is the content hash: on a reachable, well-formed store,
    ingesting a new file whose text hashes to the id of a record stored
    under another path overwrites that record.  No record is added, the old
    record is gone from its path, and the one record of that id now
    describes the new file. *)
Theorem same_content_takes_over_record
    (env : Env) (p : string) (w : World)
    (text : string) (meta : DocumentMetadata.t) (info : DocumentExtraction.t)
    (r0 : RawDoc) :
  healthy w ->
  wf_store (docs w) ->
  ingestible env p text meta info ->
  absolute env p = p ->
  r0 ∈ docs w ->
  raw_id r0 = md5_hexdigest env text ->
  raw_path r0 <> p ->
  Collection.find_one (Collection.path_is p) (docs w) = None ->
  let r := process_file env p false w in
  length (docs (snd r)) = length (docs w) /\
  (r0 ∉ docs (snd r)) /\
  (count_by_path (raw_path r0) (docs (snd r)) + 1
   = count_by_path (raw_path r0) (docs w))%nat /\
  count_by_path p (docs (snd r)) = 1%nat /\
  fst (get (raw_id r0) (snd r)) =
    Ok (Some (enriched info (parsed env p text meta))).
Proof.
  intros Hh Hwf Hing Habs Hin Hid Hpath Hnone r.
  assert (Hmd5 : md5_hexdigest env text <> EmptyString).
  { rewrite <- Hid. destruct Hwf as [_ Hne]. eapply Forall_forall in Hne; eauto. }
  destruct (process_file_ingests env p false w text meta info Hh Hing Hmd5)
    as (_ & H2 & c1 & Hc1 & _ & Hdocs); [by right|].
  fold r in H2, Hdocs.
  assert (c1 = docs w) as ->.
  { destruct Hc1 as [->| ->]; [done|]. by apply find_none_delete_many. }
  set (d := enriched info (parsed env p text meta)) in *.
  assert (Hdid : ParsedDocument.id d = raw_id r0) by (by rewrite Hid).
  assert (Hdp : raw_path (model_dump d) = p) by exact Habs.
  rewrite Hdid in Hdocs.
  assert (Hwf' : wf_store (docs (snd r))).
  { rewrite Hdocs, <- Hdid. apply (replace_one_wf (model_dump d)); [|done].
    exact Hmd5. }
  split.
  { rewrite Hdocs, replace_one_length.
    by rewrite find_one_id_of_elem by (apply Hwf || done). }
  split.
  { intros Hr0.
    assert (r0 = model_dump d) as Heq.
    { eapply NoDup_raw_id_inj; [apply Hwf'|done| |by rewrite <- Hdid].
      rewrite Hdocs. apply list_elem_of_In. eapply find_some.
      by apply replace_one_find. }
    apply Hpath. by rewrite Heq. }
  split.
  { pose proof (replace_one_count_move (raw_path r0) (raw_id r0) (model_dump d) r0
                  (docs w) (proj1 Hwf) Hin eq_refl) as Hc.
    rewrite Hdocs.
    rewrite (proj2 (path_is_true _ _) eq_refl) in Hc.
    assert (Collection.path_is (raw_path r0) (model_dump d) = false) as Hf.
    { apply path_is_false. rewrite Hdp. congruence. }
    rewrite Hf in Hc. lia. }
  split.
  { rewrite Hdocs. apply replace_one_count; [done|]. by apply path_is_true. }
  rewrite get_run, (healthy_next _ H2). simpl.
  rewrite Hdocs. by rewrite replace_one_find.
Qed.

(** X15.  On a reachable, well-formed store the delete flow removes exactly
    one record, the first one stored under the path: the number of records
    under the path drops by one and every record with another id stays.
    Without a record under the path it changes nothing and logs a warning.
    It returns normally in both cases. *)
Theorem delete_event_removes_one_record (p : string) (w : World) :
  healthy w ->
  wf_store (docs w) ->
  let r := handle_deleted_file p w in
  fst r = Ok tt /\
  match Collection.find_one (Collection.path_is p) (docs w) with
  | Some r0 =>
      docs (snd r) = List.filter (fun x => negb (Collection.id_is (raw_id r0) x)) (docs w) /\
      (count_by_path p (docs (snd r)) + 1 = count_by_path p (docs w))%nat /\
      (length (docs (snd r)) + 1 = length (docs w))%nat
  | None =>
      docs (snd r) = docs w /\
      last (log (snd r)) = Some (WARNING, "No document found for deleted file: " +:+ p)
  end.
Proof.
  intros Hh [Hnd Hne] r.
  destruct (handle_deleted_file_run p w Hh) as (H1 & _ & H3 & H4).
  fold r in H1, H3, H4. split; [done|].
  destruct (Collection.find_one (Collection.path_is p) (docs w)) as [r0|] eqn:Hfind.
  - destruct (find_one_path_elem _ _ _ Hfind) as [Hin Hp].
    assert (Hid : raw_id r0 <> EmptyString) by (eapply Forall_forall in Hne; eauto).
    rewrite (proj2 (truthy_true _) Hid) in H3.
    pose proof (delete_one_count p r0 (docs w) Hnd Hin) as Hc.
    rewrite (proj2 (path_is_true _ _) Hp) in Hc.
    split; [by rewrite H3, delete_one_filter|]. split; [by rewrite H3|].
    rewrite H3, delete_one_filter by done.
    pose proof (filter_length (Collection.id_is (raw_id r0)) (docs w)) as Hl.
    assert (length (List.filter (Collection.id_is (raw_id r0)) (docs w)) = 1%nat)
      as Hone; [|lia].
    clear -Hnd Hin. induction (docs w) as [|d c IH]; [inversion Hin|].
    simpl in *. apply NoDup_cons in Hnd as [Hd Hnd].
    destruct (Collection.id_is (raw_id r0) d) eqn:E; simpl.
    + f_equal. apply id_is_true in E.
      assert (Hall : forallb (fun x => negb (Collection.id_is (raw_id r0) x)) c = true).
      { apply forallb_forall. intros x Hx. apply negb_true_iff, id_is_false.
        intros Hxe. apply Hd. rewrite E, <- Hxe.
        apply list_elem_of_fmap. exists x. split; [done|by apply list_elem_of_In]. }
      clear -Hall. induction c as [|x c IH]; simpl in *; [done|].
      apply andb_true_iff in Hall as [Hx Hall].
      apply negb_true_iff in Hx. rewrite Hx. by apply IH.
    + apply id_is_false in E.
      apply elem_of_cons in Hin as [->|Hin]; [done|]. by apply IH.
  - split; [done|]. by apply H4.
Qed.

Lemma delete_event_removes_one_record_witness :
  let r := handle_deleted_file "/data/inbox/a.txt" world_ab in
  fst r = Ok tt /\ docs (snd r) = [model_dump doc_b].
Proof.
  destruct (delete_event_removes_one_record "/data/inbox/a.txt" world_ab) as (H1 & H2).
  - reflexivity.
  - split; vm_compute.
    + apply NoDup_cons. split; [|apply NoDup_singleton].
      intros H. apply list_elem_of_singleton in H. discriminate.
    + repeat constructor; discriminate.
  - split; [exact H1|]. destruct H2 as (H2 & _). rewrite H2. reflexivity.
Defined.

(** X16.  Create then delete is a round trip: on a reachable store with no
    record under the path and no record of the file's content hash,
    ingesting the file and then handling its deletion leaves the
    collection exactly as it was. *)
Theorem create_then_delete_restores
    (env : Env) (p : string) (w : World)
    (text : string) (meta : DocumentMetadata.t) (info : DocumentExtraction.t) :
  healthy w ->
  ingestible env p text meta info ->
  absolute env p = p ->
  md5_hexdigest env text <> EmptyString ->
  md5_hexdigest env text ∉ map raw_id (docs w) ->
  Collection.find_one (Collection.path_is p) (docs w) = None ->
  docs (snd (handle_deleted_file p (snd (process_file env p false w)))) = docs w.
Proof.
  intros Hh Hing Habs Hmd5 Hfresh Hnone.
  destruct (process_file_ingests env p false w text meta info Hh Hing Hmd5)
    as (_ & H2 & c1 & Hc1 & _ & Hdocs); [by right|].
  assert (c1 = docs w) as ->.
  { destruct Hc1 as [->| ->]; [done|]. by apply find_none_delete_many. }
  set (d := enriched info (parsed env p text meta)) in *.
  assert (Hrid : raw_id (model_dump d) = md5_hexdigest env text) by done.
  change (ParsedDocument.id d) with (md5_hexdigest env text) in Hdocs.
  rewrite replace_one_ids_fresh in Hdocs by done.
  destruct (handle_deleted_file_run p _ H2) as (_ & _ & H3 & _).
  rewrite H3, Hdocs.
  assert (Hfind : Collection.find_one (Collection.path_is p) (docs w ++ [model_dump d])
                  = Some (model_dump d)).
  { rewrite <- (replace_one_ids_fresh (md5_hexdigest env text)) by done.
    apply replace_one_find_path; [done|]. by apply path_is_true. }
  rewrite Hfind, Hrid, (proj2 (truthy_true _) Hmd5).
  by apply delete_one_app_fresh.
Qed.

Lemma create_then_delete_restores_witness :
  docs (snd (handle_deleted_file "/data/inbox/sub/b.md"
               (snd (process_file sample_env "/data/inbox/sub/b.md" false world_a))))
  = docs world_a.
Proof.
  apply (create_then_delete_restores sample_env "/data/inbox/sub/b.md" world_a
           "text of /data/inbox/sub/b.md" sample_meta
           (DocumentExtraction.mk ["k"] ["t"] "summary of text of /data/inbox/sub/b.md")).
  - reflexivity.
  - exists TextParser. repeat split; reflexivity.
  - reflexivity.
  - discriminate.
  - vm_compute. intros H. apply list_elem_of_singleton in H. discriminate.
  - reflexivity.
Defined.

Lemma same_content_takes_over_record_witness :
  let r := process_file sample_env_same "/data/inbox/copy.txt" false world_same in
  docs world_same = [record_same] /\
  raw_path record_same = "/data/inbox/a.txt" /\
  length (docs (snd r)) = 1%nat /\
  count_by_path "/data/inbox/a.txt" (docs (snd r)) = 0%nat /\
  count_by_path "/data/inbox/copy.txt" (docs (snd r)) = 1%nat.
Proof.
  destruct (same_content_takes_over_record sample_env_same "/data/inbox/copy.txt"
              world_same "same text" sample_meta
              (DocumentExtraction.mk ["k"] ["t"] "summary of same text") record_same)
    as (H1 & _ & H3 & H4 & _).
  - reflexivity.
  - split; vm_compute; [apply NoDup_singleton|repeat constructor; discriminate].
  - exists TextParser. repeat split; reflexivity.
  - reflexivity.
  - vm_compute. by left.
  - reflexivity.
  - discriminate.
  - reflexivity.
  - split; [reflexivity|]. split; [reflexivity|]. split; [exact H1|].
    split; [|exact H4].
    change (raw_path record_same) with "/data/inbox/a.txt" in H3.
    change (count_by_path "/data/inbox/a.txt" (docs world_same)) with 1%nat in H3.
    lia.
Defined.

Section MoveFacts.
Import Collection.
Local Arguments String.append : simpl never.
Local Arguments fresh_hex : simpl never.

Lemma moved_path src dest d : ParsedDocument.path (moved src dest d) = dest.
Proof. unfold moved. by destruct (negb _). Qed.

End MoveFacts.

(** X17.  A move whose source path has no record falls back to creation:
    on a reachable store the move flow is, two log lines apart, the
    un-forced [process_file] of the destination. *)
Theorem move_without_record_is_create (env : Env) (src dest : string) (w : World) :
  healthy w ->
  Collection.find_one (Collection.path_is src) (docs w) = None ->
  handle_moved_file env src dest w =
    process_file env dest false
      (mkWorld (docs w)
         (log w ++
            [(INFO, "Handling moved file from " +:+ src +:+ " to " +:+ dest);
             (INFO, "No document found for source path " +:+ src
                    +:+ ", processing " +:+ dest +:+ " as a new file")])
         (tail (faults w)) (entropy w)).
Proof.
  intros Hh Hfind.
  match goal with |- _ = process_file env dest false ?W => set (W' := W) end.
  unfold handle_moved_file, try_except, bind, logger_info, logger. simpl.
  rewrite get_id_by_path_run. no_fault Hh. simpl.
  rewrite Hfind. simpl.
  match goal with |- context [process_file env dest false ?W] =>
    tryif constr_eq W W' then fail else
      replace W with W'
        by (unfold W', with_log, tick, with_faults; simpl; by rewrite <- app_assoc)
  end.
  pose proof (process_file_ok env dest false W') as Hok.
  destruct (process_file env dest false W') as [[[]|e] w'];
    simpl in *; [reflexivity|discriminate].
Qed.

Lemma move_without_record_is_create_witness :
  docs (snd (handle_moved_file sample_env "/data/inbox/old.txt" "/data/inbox/sub/b.md"
               world_a))
  = [model_dump doc_a; model_dump doc_b].
Proof.
  rewrite (move_without_record_is_create sample_env "/data/inbox/old.txt"
             "/data/inbox/sub/b.md" world_a); reflexivity.
Defined.

(** X18.  The move flow never looks at the destination: on a reachable,
    well-formed store, moving a recorded file to another path adds one to
    the number of records under the destination, whatever was recorded
    there, takes one from the number under the source and keeps the size
    of the collection. *)
Theorem move_onto_occupied_path_duplicates
    (env : Env) (src dest : string) (w : World) (r0 : RawDoc) :
  healthy w ->
  wf_store (docs w) ->
  Collection.find_one (Collection.path_is src) (docs w) = Some r0 ->
  src <> dest ->
  let r := handle_moved_file env src dest w in
  count_by_path dest (docs (snd r)) = S (count_by_path dest (docs w)) /\
  (count_by_path src (docs (snd r)) + 1 = count_by_path src (docs w))%nat /\
  length (docs (snd r)) = length (docs w).
Proof.
  intros Hh Hwf Hfind Hne r.
  destruct (handle_moved_file_run env src dest w r0 Hh Hwf Hfind) as [_ Hdocs].
  fold r in Hdocs. rewrite Hdocs.
  destruct (find_one_path_elem _ _ _ Hfind) as [Hin Hp].
  set (r1 := model_dump (moved src dest (raw_doc r0))).
  assert (Hr1 : raw_path r1 = dest) by apply moved_path.
  pose proof (replace_one_count_move dest (raw_id r0) r1 r0 (docs w)
                (proj1 Hwf) Hin eq_refl) as Hd.
  pose proof (replace_one_count_move src (raw_id r0) r1 r0 (docs w)
                (proj1 Hwf) Hin eq_refl) as Hs.
  rewrite (proj2 (path_is_true dest r1) Hr1) in Hd.
  assert (Collection.path_is dest r0 = false) as Hf1
    by (apply path_is_false; congruence).
  assert (Collection.path_is src r1 = false) as Hf2
    by (apply path_is_false; congruence).
  rewrite (proj2 (path_is_true src r0) Hp), Hf2 in Hs. rewrite Hf1 in Hd.
  split; [lia|]. split; [lia|].
  rewrite replace_one_length.
  by rewrite find_one_id_of_elem by (apply Hwf || done).
Qed.

Lemma move_onto_occupied_path_duplicates_witness :
  let r := handle_moved_file sample_env "/data/inbox/a.txt" "/data/inbox/sub/b.md"
             world_ab in
  count_by_path "/data/inbox/sub/b.md" (docs world_ab) = 1%nat /\
  count_by_path "/data/inbox/sub/b.md" (docs (snd r)) = 2%nat.
Proof.
  destruct (move_onto_occupied_path_duplicates sample_env "/data/inbox/a.txt"
              "/data/inbox/sub/b.md" world_ab (model_dump doc_a)) as (H1 & _).
  - reflexivity.
  - split; vm_compute.
    + apply NoDup_cons. split; [|apply NoDup_singleton].
      intros H. apply list_elem_of_singleton in H. discriminate.
    + repeat constructor; discriminate.
  - reflexivity.
  - discriminate.
  - split; [reflexivity|exact H1].
Defined.

(** X19.  A move writes the record back through [upsert], which stores the
    model's fields only: on a reachable, well-formed store the moved
    record ends with no per-length summaries and no upload date, whatever
    [set_summary] had stored for it. *)
Theorem move_discards_summaries
    (env : Env) (src dest : string) (w : World) (r0 : RawDoc) :
  healthy w ->
  wf_store (docs w) ->
  Collection.find_one (Collection.path_is src) (docs w) = Some r0 ->
  let r := handle_moved_file env src dest w in
  forall x, x ∈ docs (snd r) -> raw_id x = raw_id r0 ->
            summaries x = ∅ /\ uploaded_at x = None.
Proof.
  intros Hh Hwf Hfind r x Hx Hxid.
  destruct (handle_moved_file_run env src dest w r0 Hh Hwf Hfind) as [_ Hdocs].
  fold r in Hdocs.
  destruct (find_one_path_elem _ _ _ Hfind) as [Hin _].
  set (r1 := model_dump (moved src dest (raw_doc r0))) in *.
  assert (Hr1 : raw_id r1 = raw_id r0) by apply moved_id.
  assert (Hwf' : wf_store (docs (snd r))).
  { rewrite Hdocs, <- Hr1. apply replace_one_wf; [|done].
    rewrite Hr1. destruct Hwf as [_ Hne]. eapply Forall_forall in Hne; eauto. }
  assert (x = r1) as ->; [|done].
  eapply NoDup_raw_id_inj; [apply Hwf'|done| |congruence].
  rewrite Hdocs. apply list_elem_of_In. eapply find_some.
  by apply replace_one_find.
Qed.

Lemma move_discards_summaries_witness :
  let w := snd (set_summary (ParsedDocument.id doc_a) 150 "short" world_a) in
  let r := handle_moved_file sample_env "/data/inbox/a.txt" "/data/inbox/b.txt" w in
  summaries <$> docs w = [{[ 150%Z := "short" ]}] /\
  forall x, x ∈ docs (snd r) -> raw_id x = ParsedDocument.id doc_a ->
            summaries x = ∅ /\ uploaded_at x = None.
Proof.
  split; [reflexivity|].
  apply (move_discards_summaries sample_env "/data/inbox/a.txt" "/data/inbox/b.txt"
           (snd (set_summary (ParsedDocument.id doc_a) 150 "short" world_a))
           (mkRaw doc_a {[ 150%Z := "short" ]} None)).
  - reflexivity.
  - split; vm_compute; [apply NoDup_singleton|repeat constructor; discriminate].
  - reflexivity.
Defined.

(** * Invariants of the event handlers *)

Section HandlerInvariants.
Import Collection.
Local Arguments String.append : simpl never.
Local Arguments fresh_hex : simpl never.

Lemma cleanup_loop_sublist d observed cursor n w :
  docs (snd (cleanup_loop d observed cursor n w)) `sublist_of` docs w.
Proof.
  revert n w. induction cursor as [|doc cursor IH]; intros n w; simpl; [done|].
  destruct (Py.truthy (ParsedDocument.path doc)
            && Py.startswith (ParsedDocument.path doc) d); simpl; [|apply IH].
  destruct (bool_decide (ParsedDocument.path doc ∈ observed)); simpl; [apply IH|].
  unfold bind, logger_info, logger. simpl.
  rewrite delete_run.
  match goal with |- context [next_fault ?w1] => destruct (next_fault w1) end;
    simpl; [done|].
  etrans; [apply IH|]. simpl. apply delete_one_sublist.
Qed.

Lemma cleanup_sublist d observed w :
  docs (snd (_cleanup_deleted_files_in_directory d observed w)) `sublist_of` docs w.
Proof.
  unfold _cleanup_deleted_files_in_directory, try_except, bind, logger_info,
    logger_error, logger. simpl.
  rewrite list_meta_run.
  match goal with |- context [next_fault ?w1] => destruct (next_fault w1) end;
    simpl; [done|].
  match goal with |- context [cleanup_loop d observed ?cur ?n ?w2] =>
    pose proof (cleanup_loop_sublist d observed cur n w2) as Hs;
    destruct (cleanup_loop d observed cur n w2) as [[n'|e] w3] end;
    simpl in *; [|done].
  by destruct (0 <? n')%Z.
Qed.

Lemma process_directory_wf env d w :
  wf_store (docs w) -> wf_store (docs (snd (process_directory env d w))).
Proof.
  intros Hwf.
  unfold process_directory, try_except, bind, logger_info, logger_error, logger.
  simpl.
  match goal with |- context [walk_loop env ?fs ?acc ?w0] =>
    destruct (walk_loop_run env fs acc w0) as (Hok & _ & Hwf1);
    destruct (walk_loop env fs acc w0) as [o w1] end.
  simpl in *. subst o. specialize (Hwf1 Hwf).
  match goal with |- context [_cleanup_deleted_files_in_directory d ?obs w1] =>
    pose proof (cleanup_sublist d obs w1) as Hs;
    destruct (_cleanup_deleted_files_in_directory d obs w1) as [[[]|e] w2] end;
    simpl in *; by eapply wf_store_sublist.
Qed.

Lemma handle_deleted_file_sublist p w :
  docs (snd (handle_deleted_file p w)) `sublist_of` docs w.
Proof.
  unfold handle_deleted_file, try_except, bind, logger_info, logger_warning,
    logger_error, logger. simpl.
  rewrite get_id_by_path_run.
  match goal with |- context [next_fault ?w1] => destruct (next_fault w1) end;
    simpl; [done|].
  destruct (find_one (path_is p) (docs w)) as [r0|]; simpl; [|done].
  destruct (Py.truthy (raw_id r0)); simpl; [|done].
  rewrite delete_run.
  match goal with |- context [next_fault ?w1] => destruct (next_fault w1) end;
    simpl; [done|apply delete_one_sublist].
Qed.

Ltac process_file_case env Hwf :=
  match goal with
  | |- context [process_file env ?p ?f ?W] =>
      let Hpf := fresh "Hpf" in
      pose proof (process_file_wf env p f W) as Hpf;
      destruct (process_file env p f W) as [[[]|?] ?];
      simpl in *; apply Hpf; exact Hwf
  end.

Lemma handle_moved_file_wf env src dest w :
  wf_store (docs w) -> wf_store (docs (snd (handle_moved_file env src dest w))).
Proof.
  intros Hwf.
  unfold handle_moved_file, try_except, bind, logger_info, logger_warning,
    logger_error, logger. simpl.
  rewrite get_id_by_path_run.
  match goal with |- context [next_fault ?w1] => destruct (next_fault w1) end;
    simpl; [done|].
  destruct (find_one (path_is src) (docs w)) as [r0|]; simpl.
  2:{ process_file_case env Hwf. }
  destruct (Py.truthy (raw_id r0)); simpl.
  2:{ process_file_case env Hwf. }
  rewrite get_run.
  match goal with |- context [next_fault ?w1] => destruct (next_fault w1) end;
    simpl; [done|].
  destruct (find_one (id_is (raw_id r0)) (docs w)) as [r1|]; simpl.
  2:{ process_file_case env Hwf. }
  match goal with |- context [upsert ?d ?w1] =>
    pose proof (upsert_effect d w1) as (_ & _ & Hd);
    destruct (upsert d w1) as [[i|e] w2] end; simpl in *.
  - destruct Hd as [(e & He & _)|(d & _ & Hne & _ & ->)]; [done|].
    by apply (replace_one_wf (model_dump d)).
  - destruct Hd as [(e' & _ & ->)|(d & He & _)]; [done|done].
Qed.

Lemma _run_coroutine_docs (m : M unit) w :
  docs (snd (_run_coroutine m w)) = docs (snd (m w)).
Proof.
  unfold _run_coroutine, try_except, bind, ret, logger_error, logger.
  by destruct (m w) as [[[]|e] w'].
Qed.

Lemma written_ids c c' :
  written c c' ->
  map raw_id c ⊆ map raw_id c' /\ (length c <= length c' <= S (length c))%nat.
Proof.
  intros [->|(d & _ & ->)]; [split; [done|lia]|].
  split.
  - destruct (decide (ParsedDocument.id d ∈ map raw_id c)) as [Hin|Hin].
    + by rewrite replace_one_ids_mem.
    + rewrite replace_one_ids_fresh by done. rewrite map_app.
      intros x Hx. apply elem_of_app. by left.
  - rewrite replace_one_length. destruct (find_one _ c); lia.
Qed.

End HandlerInvariants.

(** X20.  Whatever the event, the fault schedule and the environment,
    each of the four watchdog handlers leaves a well-formed store well
    formed: no handler ever stores two records with one id or a record
    with an empty id. *)
Theorem event_handlers_keep_store_well_formed (env : Env) (event : Event) (w : World) :
  wf_store (docs w) ->
  wf_store (docs (snd (on_created env event w))) /\
  wf_store (docs (snd (on_modified env event w))) /\
  wf_store (docs (snd (on_deleted event w))) /\
  wf_store (docs (snd (on_moved env event w))).
Proof.
  intros Hwf.
  unfold on_created, on_modified, on_deleted, on_moved, bind, logger_info, logger.
  simpl. destruct (is_directory event); simpl; rewrite ?_run_coroutine_docs.
  - split; [by apply process_directory_wf|]. split; [done|]. split; [done|].
    by apply process_directory_wf.
  - split; [by apply process_file_wf|]. split; [by apply process_file_wf|].
    split; [|by apply handle_moved_file_wf].
    eapply wf_store_sublist; [apply handle_deleted_file_sublist|done].
Qed.

Lemma event_handlers_keep_store_well_formed_witness :
  wf_store (docs (snd (on_created sample_env
                         (mkEvent "/data/inbox" EmptyString true) world_stale))) /\
  wf_store (docs (snd (on_moved sample_env
                         (mkEvent "/data/inbox/a.txt" "/data/inbox/old.txt" false)
                         world_stale))).
Proof.
  destruct (event_handlers_keep_store_well_formed sample_env
              (mkEvent "/data/inbox" EmptyString true) world_stale) as (H1 & _).
  { split; vm_compute.
    - apply NoDup_cons. split; [|apply NoDup_singleton].
      intros H. apply list_elem_of_singleton in H. discriminate.
    - repeat constructor; discriminate. }
  destruct (event_handlers_keep_store_well_formed sample_env
              (mkEvent "/data/inbox/a.txt" "/data/inbox/old.txt" false) world_stale)
    as (_ & _ & _ & H4).
  { split; vm_compute.
    - apply NoDup_cons. split; [|apply NoDup_singleton].
      intros H. apply list_elem_of_singleton in H. discriminate.
    - repeat constructor; discriminate. }
  split; [exact H1|exact H4].
Defined.

(** X21.  An un-forced [process_file] never deletes: whatever the file, the
    fault schedule and the environment, every id stored before is stored
    after, and at most one record is added. *)
Theorem unforced_process_file_never_removes (env : Env) (p : string) (w : World) :
  map raw_id (docs w) ⊆ map raw_id (docs (snd (process_file env p false w))) /\
  (length (docs w) <= length (docs (snd (process_file env p false w)))
   <= S (length (docs w)))%nat.
Proof. apply written_ids, process_file_unforced_effect. Qed.

(** * The parser registry *)

Section RegistryFacts.

Lemma registry_get_set k ps reg k' :
  registry_get (registry_set k ps reg) k' =
    if String.eqb k k' then Some ps else registry_get reg k'.
Proof.
  induction reg as [|[k0 ps0] reg IH]; simpl.
  - done.
  - destruct (String.eqb k0 k) eqn:E; simpl.
    + apply String.eqb_eq in E. subst k0.
      by destruct (String.eqb k k').
    + rewrite IH. destruct (String.eqb k0 k') eqn:E'; [|done].
      apply String.eqb_eq in E'. subst k0. by rewrite String.eqb_sym, E.
Qed.

Lemma register_keeps ps suffixes reg k :
  registry_get reg k = Some ps ->
  registry_get (register suffixes ps reg) k = Some ps.
Proof.
  unfold register. revert reg.
  induction suffixes as [|s l IH]; intros reg H; simpl; [done|].
  apply IH. rewrite registry_get_set. by destruct (String.eqb _ k).
Qed.

Lemma register_sets ps suffixes reg suf :
  suf ∈ suffixes ->
  registry_get (register suffixes ps reg) (Py.lower suf) = Some ps.
Proof.
  revert reg. induction suffixes as [|s l IH]; intros reg Hin; [inversion Hin|].
  apply elem_of_cons in Hin as [->|Hin].
  - change (register (s :: l) ps reg)
      with (register l ps (registry_set (Py.lower s) ps reg)).
    apply register_keeps. by rewrite registry_get_set, String.eqb_refl.
  - change (register (s :: l) ps reg)
      with (register l ps (registry_set (Py.lower s) ps reg)).
    by apply IH.
Qed.

Lemma register_other ps suffixes reg k :
  k ∉ map Py.lower suffixes ->
  registry_get (register suffixes ps reg) k = registry_get reg k.
Proof.
  revert reg. induction suffixes as [|s l IH]; intros reg Hk; [done|].
  simpl in Hk. apply not_elem_of_cons in Hk as [Hne Hk].
  change (register (s :: l) ps reg)
    with (register l ps (registry_set (Py.lower s) ps reg)).
  rewrite IH by done. rewrite registry_get_set.
  by rewrite (proj2 (String.eqb_neq _ _)) by congruence.
Qed.

End RegistryFacts.

(** X22.  After a parser class is registered for some suffixes, looking up
    the lower-cased form of any spelling of one of them, as [process_file]
    and [parse_file] do, resolves to that parser, even if the suffix was
    registered in upper case; keys that are not among the lower-cased
    suffixes resolve as before.  The registry of the repository is what the
    three decorators build. *)
Theorem register_resolves_case_insensitively
    (suffixes : list string) (ps : Parser) (reg : list (string * Parser)) :
  (forall suf s,
      suf ∈ suffixes -> Py.lower s = Py.lower suf ->
      registry_get (register suffixes ps reg) (Py.lower s) = Some ps /\
      registry_mem (register suffixes ps reg) (Py.lower s) = true) /\
  (forall k,
      k ∉ map Py.lower suffixes ->
      registry_get (register suffixes ps reg) k = registry_get reg k) /\
  REGISTRY =
    register [".txt"; ".csv"; ".md"; ".json"] TextParser
      (register [".pdf"] PDFParser
         (register [".docx"; ".doc"] DocxParser [])).
Proof.
  split; [|split; [apply register_other|reflexivity]].
  intros suf s Hin Hs. rewrite Hs.
  pose proof (register_sets ps suffixes reg suf Hin) as H.
  split; [done|]. unfold registry_mem. by rewrite H.
Qed.

Lemma register_resolves_case_insensitively_witness :
  registry_get (register [".PDF"] PDFParser []) (Py.lower ".Pdf") = Some PDFParser /\
  registry_get (register [".PDF"] PDFParser REGISTRY) ".txt" = Some TextParser.
Proof.
  destruct (register_resolves_case_insensitively [".PDF"] PDFParser []) as (H1 & _).
  destruct (register_resolves_case_insensitively [".PDF"] PDFParser REGISTRY)
    as (_ & H2 & _).
  split.
  - apply (H1 ".PDF" ".Pdf"); [by left|reflexivity].
  - rewrite H2; [reflexivity|].
    vm_compute. intros H. apply list_elem_of_singleton in H. discriminate.
Defined.

(** * Truncation before enrichment *)

Section Truncation.

Lemma take_app_exact a b : Py.take (N.of_nat (String.length a)) (a +:+ b) = a.
Proof.
  induction a as [|c a IH]; simpl.
  - unfold String.append. by destruct b.
  - change (String c a +:+ b) with (String c (a +:+ b)).
    cbn [Py.take].
    replace (N.of_nat (S (String.length a)) =? 0)%N with false
      by (symmetry; apply N.eqb_neq; lia).
    replace (N.pred (N.of_nat (S (String.length a))))
      with (N.of_nat (String.length a)) by lia.
    by rewrite IH.
Qed.

Lemma take_short n t : (N.of_nat (String.length t) <= n)%N -> Py.take n t = t.
Proof.
  revert n. induction t as [|c t IH]; intros n Hn; [done|].
  cbn [Py.take]. simpl String.length in Hn.
  replace (n =? 0)%N with false by (symmetry; apply N.eqb_neq; lia).
  rewrite IH; [done|lia].
Qed.

End Truncation.

(** X23.  Enrichment sees at most the first 8000 characters of a text: a
    text of up to 8000 characters goes to the chain whole, and whatever
    follows the first 8000 characters of a longer one has no influence on
    the result.  The call changes nothing in the world. *)
Theorem enrichment_reads_first_8000 (env : Env) (w : World) :
  (forall t,
      (N.of_nat (String.length t) <= 8000)%N ->
      extract_document_info env t w =
        (match chain_ainvoke env t with Ok r => Ok r | Raise e => Raise e end, w)) /\
  (forall head tail,
      N.of_nat (String.length head) = 8000%N ->
      extract_document_info env (head +:+ tail) w = extract_document_info env head w).
Proof.
  split.
  - intros t Ht. unfold extract_document_info. rewrite take_short by done.
    by destruct (chain_ainvoke env t).
  - intros head tail Hlen. unfold extract_document_info.
    rewrite <- Hlen, take_app_exact.
    by rewrite take_short by lia.
Qed.

Lemma enrichment_reads_first_8000_witness :
  extract_document_info sample_env "text of /data/inbox/a.txt" empty_world
    = (Ok (DocumentExtraction.mk ["k"] ["t"] "summary of text of /data/inbox/a.txt"),
       empty_world) /\
  extract_document_info sample_env (long_text +:+ " and more") empty_world
    = extract_document_info sample_env long_text empty_world.
Proof.
  destruct (enrichment_reads_first_8000 sample_env empty_world) as (H1 & H2).
  split.
  - rewrite H1; [reflexivity|]. vm_compute. discriminate.
  - apply H2. vm_compute. reflexivity.
Defined.

(** * The walk, the sweep and a reader of the store *)

Section WalkFacts.
Import Collection.
Local Arguments String.append : simpl never.
Local Arguments fresh_hex : simpl never.

Lemma walk_loop_app env l1 l2 acc w :
  walk_loop env (l1 ++ l2) acc w =
    walk_loop env l2 (acc ∪ list_to_set l1) (snd (walk_loop env l1 acc w)).
Proof.
  revert acc w. induction l1 as [|f l1 IH]; intros acc w; simpl.
  - by rewrite (right_id_L ∅ (∪)).
  - unfold bind.
    pose proof (process_file_ok env f false w) as Hok.
    destruct (process_file env f false w) as [o w1]. simpl in *. subst o.
    rewrite IH. by rewrite (assoc_L (∪)).
Qed.

End WalkFacts.

(** X24.  A directory walk is never cut short: whatever the files, the
    fault schedule and the failures of parsing or enrichment, the walk
    returns the set of all the paths it was given, and the files after any
    prefix of the walk are processed exactly as in a walk that starts there
    from the world the prefix left. *)
Theorem directory_walk_is_never_aborted
    (env : Env) (l1 l2 : list string) (acc : gset string) (w : World) :
  fst (walk_loop env (l1 ++ l2) acc w) = Ok (acc ∪ list_to_set (l1 ++ l2)) /\
  walk_loop env (l1 ++ l2) acc w =
    walk_loop env l2 (acc ∪ list_to_set l1) (snd (walk_loop env l1 acc w)).
Proof.
  split; [apply walk_loop_run|apply walk_loop_app].
Qed.

(** X25.  The reconciliation sweep only deletes and never raises: whatever
    the fault schedule, what it leaves is a sub-sequence of the collection
    it found; and when the listing itself fails it deletes nothing and
    ends the log with the error. *)
Theorem sweep_only_deletes (d : string) (observed : gset string) (w : World) :
  fst (_cleanup_deleted_files_in_directory d observed w) = Ok tt /\
  docs (snd (_cleanup_deleted_files_in_directory d observed w)) `sublist_of` docs w /\
  (forall msg,
      next_fault w = Some msg ->
      docs (snd (_cleanup_deleted_files_in_directory d observed w)) = docs w /\
      last (log (snd (_cleanup_deleted_files_in_directory d observed w))) =
        Some (ERROR, "Error cleaning up deleted files in directory "
                     +:+ d +:+ ": " +:+ msg)).
Proof.
  split; [apply try_except_logged|]. split; [apply cleanup_sublist|].
  intros msg Hf.
  unfold _cleanup_deleted_files_in_directory, try_except, bind, logger_info,
    logger_error, logger. simpl.
  rewrite list_meta_run.
  replace (next_fault _) with (Some msg). simpl.
  split; [done|apply last_snoc].
Qed.

Lemma sweep_only_deletes_witness :
  docs (snd (_cleanup_deleted_files_in_directory "/data/inbox" ∅ faulty_world))
    = docs faulty_world /\
  last (log (snd (_cleanup_deleted_files_in_directory "/data/inbox" ∅ faulty_world)))
    = Some (ERROR, "Error cleaning up deleted files in directory /data/inbox: connection refused").
Proof.
  destruct (sweep_only_deletes "/data/inbox" ∅ faulty_world) as (_ & _ & H).
  apply (H "connection refused"). reflexivity.
Defined.

(** X26.  The [get_topics] tool never raises.  On a reachable store it
    answers an unknown id with a one-line error; and after a successful
    ingestion of a file, asking for the topics of its content hash returns
    exactly the topics the enrichment produced. *)
Theorem get_topics_after_ingestion
    (env : Env) (p : string) (force : bool) (w : World)
    (text : string) (meta : DocumentMetadata.t) (info : DocumentExtraction.t) :
  healthy w ->
  ingestible env p text meta info ->
  md5_hexdigest env text <> EmptyString ->
  force = true \/ Collection.find_one (Collection.path_is p) (docs w) = None ->
  fst (get_topics (md5_hexdigest env text) (snd (process_file env p force w)))
    = Ok (DocumentExtraction.topics info) /\
  (forall i, Collection.find_one (Collection.id_is i) (docs w) = None ->
             fst (get_topics i w)
             = Ok ["Error: Document with ID " +:+ i +:+ " not found"]) /\
  (forall i w', exists l, fst (get_topics i w') = Ok l).
Proof.
  intros Hh Hing Hmd5 Hgo.
  destruct (process_file_ingests env p force w text meta info Hh Hing Hmd5 Hgo)
    as (_ & H2 & c1 & _ & _ & Hdocs).
  split; [|split].
  - unfold get_topics, try_except, bind, ret.
    rewrite get_run, (healthy_next _ H2). simpl.
    rewrite Hdocs.
    change (ParsedDocument.id (enriched info (parsed env p text meta)))
      with (md5_hexdigest env text).
    by rewrite replace_one_find.
  - intros i Hi. unfold get_topics, try_except, bind, ret.
    rewrite get_run, (healthy_next w Hh). simpl. by rewrite Hi.
  - intros i w'. unfold get_topics, try_except, bind, ret.
    rewrite get_run. destruct (next_fault w'); simpl; [eexists; reflexivity|].
    destruct (Collection.find_one (Collection.id_is i) (docs w')); simpl;
      eexists; reflexivity.
Qed.

Lemma get_topics_after_ingestion_witness :
  fst (get_topics "md5-text of /data/inbox/sub/b.md"
         (snd (process_file sample_env "/data/inbox/sub/b.md" false world_a)))
    = Ok ["t"] /\
  fst (get_topics "nope" world_a) = Ok ["Error: Document with ID nope not found"].
Proof.
  destruct (get_topics_after_ingestion sample_env "/data/inbox/sub/b.md" false world_a
              "text of /data/inbox/sub/b.md" sample_meta
              (DocumentExtraction.mk ["k"] ["t"] "summary of text of /data/inbox/sub/b.md"))
    as (H1 & H2 & _).
  - reflexivity.
  - exists TextParser. repeat split; reflexivity.
  - discriminate.
  - by right.
  - split; [exact H1|]. apply H2. reflexivity.
Defined.
